(** * Camera puzzle validator

    A shallow embedding of the decision logic of the CAPTCHA widget:
    - [CaptchaValidator.tsx]: challenge generation ([handleCameraCapture]),
      scoring and attempt bookkeeping ([handleValidationComplete]),
      retry ([handleRetry]) and the conditional rendering of the three steps;
    - [ShapeValidation.tsx]: the watermark plan ([watermarkData]), the sector
      toggling and the submission, and the [ValidationResult] component that
      decides whether the retry button is shown.

    Numbers are modelled as [Z] (every number the handlers compute with is a
    small integer), the results of [Math.random()] as rationals read from a
    stream, and React state as a record that each handler maps to the state
    of the next render.  The product [Math.random() * n] is the binary64
    product: the exact product rounded to the nearest double, ties to even
    ([JS.times]); for [n = 3] the rounding decides the index at the doubles
    just below one third and two thirds. *)

From Stdlib Require Import String Ascii DecimalString.
From Stdlib Require Import ZArith QArith Qround Qminmax Qpower List Bool Lia Lqa.
From Stdlib Require Import Permutation Sorted.
Import ListNotations.
Local Open Scope Z_scope.

(** ** The JavaScript primitives the components use *)

Module JS.

(** [Array.prototype.includes] on an array of integers. *)
Definition includes (xs : list Z) (x : Z) : bool :=
  existsb (fun y => y =? x) xs.

(** [Array.prototype.every]. *)
Definition every {A : Type} (p : A -> bool) (xs : list A) : bool :=
  forallb p xs.

(** [Array.prototype.push] of one element. *)
Definition push {A : Type} (xs : list A) (x : A) : list A := xs ++ [x].

(** [xs[i]]: [None] stands for [undefined], read outside the array. *)
Definition get {A : Type} (xs : list A) (i : Z) : option A :=
  if i <? 0 then None else nth_error xs (Z.to_nat i).

(** [xs[i] = v] on an array that may have holes ([None] is an empty slot).
    Inside the array the slot is replaced; at or past the end the array
    grows, the skipped slots staying empty; a negative index only creates a
    property and leaves the elements alone. *)
Fixpoint replace {A : Type} (xs : list (option A)) (n : nat) (v : A)
  : list (option A) :=
  match xs, n with
  | [], _ => repeat None n ++ [Some v]
  | _ :: xs', O => Some v :: xs'
  | x :: xs', S n' => x :: replace xs' n' v
  end.

Definition set {A : Type} (xs : list (option A)) (i : Z) (v : A)
  : list (option A) :=
  if i <? 0 then xs else replace xs (Z.to_nat i) v.

(** [ToString] of an integer: its decimal numeral. *)
Definition ToString (n : Z) : string := NilZero.string_of_int (Z.to_int n).

(** [Array.prototype.sort()] without a comparison function orders the
    elements by the code units of their string conversions.  The sort is
    stable; an insertion sort computes it. *)
Definition SortCompare (x y : Z) : bool :=
  String.leb (ToString x) (ToString y).

Fixpoint insert (x : Z) (xs : list Z) : list Z :=
  match xs with
  | [] => [x]
  | y :: xs' => if SortCompare x y then x :: xs else y :: insert x xs'
  end.

Fixpoint sort (xs : list Z) : list Z :=
  match xs with
  | [] => []
  | x :: xs' => insert x (sort xs')
  end.

(** *** Random draws

    [Math.random()] reads the next value of a stream; a computation threads
    the position in the stream and may have no result ([None]): a loop that
    is still running when its fuel ends, or an [undefined] array element
    where a value is needed. *)
Definition Random := nat -> Q.

Definition M (A : Type) : Type := Random -> nat -> option (A * nat).

Definition ret {A : Type} (a : A) : M A := fun _ k => Some (a, k).

Definition bind {A B : Type} (m : M A) (f : A -> M B) : M B :=
  fun rnd k =>
    match m rnd k with
    | Some (a, k') => f a rnd k'
    | None => None
    end.

Definition fail {A : Type} : M A := fun _ _ => None.

Definition defined {A : Type} (o : option A) : M A :=
  match o with
  | Some a => ret a
  | None => fail
  end.

Definition Math_random : M Q := fun rnd k => Some (rnd k, S k).

Definition Math_floor (q : Q) : Z := Qfloor q.

(** [a < b] on the results of draws. *)
Definition lt (a b : Q) : bool := negb (Qle_bool b a).

(** *** Binary64 arithmetic

    Doubles are the rationals [m * 2^e] with [|m| < 2^53]; the operations
    below are on non-negative rationals, as the draws and their products
    are. *)

(** [floor(log2 x)] of a positive real. *)
Definition exponent (x : Q) : Z :=
  let e := Z.log2 (Qnum x) - Z.log2 (Z.pos (Qden x)) in
  if Qle_bool (2 ^ e) x then e else e - 1.

(** The distance between the doubles around [x] (binary64: 53 significant
    bits, least exponent -1022). *)
Definition ulp (x : Q) : Q := (2 ^ (Z.max (exponent x) (-1022) - 52))%Q.

(** The double at or below a non-negative real. *)
Definition toDouble (x : Q) : Q :=
  if Qle_bool x 0 then 0%Q
  else (inject_Z (Qfloor (x / ulp x)) * ulp x)%Q.

(** The nearest integer, a tie going to the even one. *)
Definition roundInt (q : Q) : Z :=
  let f := Qfloor q in
  match (q - inject_Z f ?= 1 # 2)%Q with
  | Lt => f
  | Gt => f + 1
  | Eq => if Z.even f then f else f + 1
  end.

(** The double nearest to a non-negative real, ties to even. *)
Definition nearest (x : Q) : Q :=
  if Qle_bool x 0 then 0%Q
  else (inject_Z (roundInt (x / ulp x)) * ulp x)%Q.

(** The double product [r * n] of a draw with an integer: the draw is a
    double ([toDouble] leaves a double as it is), the product is rounded to
    the nearest double.  No product of a draw with 3, 4 or 16 overflows, so
    the largest exponent plays no part. *)
Definition times (r : Q) (n : Z) : Q := nearest (toDouble r * inject_Z n).

(** The doubles just below one third and two thirds,
    6004799503160661 / 2^54 and 6004799503160661 / 2^53. *)
Definition third_below : Q := 6004799503160661 # 18014398509481984.
Definition two_thirds_below : Q := 6004799503160661 # 9007199254740992.

(** [Math.floor(Math.random() * n)]. *)
Definition random_below (n : Z) : M Z :=
  bind Math_random (fun r => ret (Math_floor (times r n))).

(** The contract of [Math.random()]: every draw lies in [0, 1). *)
Definition unit_interval (rnd : Random) : Prop :=
  forall k, (0 <= rnd k)%Q /\ (rnd k < 1)%Q.

(** A stream given by its first draws, continued with zeros. *)
Definition tape (draws : list Q) : Random := fun k => nth k draws 0%Q.

End JS.

Declare Scope js_scope.
Delimit Scope js_scope with js.
Notation "x <- m ;; f" := (JS.bind m (fun x => f))
  (at level 61, m at next level, right associativity) : js_scope.

(** ** CaptchaValidator.tsx *)

Module CaptchaValidator.
Import JS.
Local Open Scope js_scope.

Inductive CaptchaStep : Type := camera | validation | result.
Inductive ValidationShape : Type := triangle | square | circle.
Inductive ValidationColor : Type := red | green | blue.

Record Position : Type := { x : Q; y : Q; size : Q }.

Record CapturedData : Type :=
  { imageData : string;
    squarePosition : Position }.

Record ValidationChallenge : Type :=
  { shape : ValidationShape;
    color : option ValidationColor;
    correctSectors : list Z }.

(** The props.  The callback itself lives outside the component: the model
    records whether one was supplied and logs the arguments of its calls. *)
Record Props : Type :=
  { onComplete : bool;
    enableColorTint : bool;
    maxAttempts : Z }.

(** The six [useState] cells. *)
Record State : Type :=
  { currentStep : CaptchaStep;
    capturedData : option CapturedData;
    challenge : option ValidationChallenge;
    validationSuccess : bool;
    attemptCount : Z;
    isBlocked : bool }.

Definition initial : State :=
  {| currentStep := camera;
     capturedData := None;
     challenge := None;
     validationSuccess := false;
     attemptCount := 0;
     isBlocked := false |}.

Definition shapes : list ValidationShape := [triangle; square; circle].
Definition colors : list ValidationColor := [red; green; blue].

(** The indices of the 16 sectors of the 4x4 grid. *)
Definition sector_index (s : Z) : Prop := 0 <= s < 16.

(** The place of a sector among the sixteen when they are ordered by their
    numerals: 0, 1, 10, 11, ..., 15, 2, 3, ..., 9. *)
Definition numeralRank (s : Z) : Z :=
  if s <? 2 then s else if s <? 10 then s + 6 else s - 8.

(** The [while] loop of [handleCameraCapture]; one unit of fuel per
    iteration. *)
Fixpoint fillSectors (fuel : nat) (numCorrectSectors : Z)
    (correctSectors : list Z) : M (list Z) :=
  if Z.of_nat (length correctSectors) <? numCorrectSectors then
    match fuel with
    | O => fail
    | S fuel' =>
        sector <- random_below 16 ;;
        if negb (includes correctSectors sector)
        then fillSectors fuel' numCorrectSectors (push correctSectors sector)
        else fillSectors fuel' numCorrectSectors correctSectors
    end
  else ret correctSectors.

(** The challenge that [handleCameraCapture] builds. *)
Definition generateChallenge (p : Props) (fuel : nat) : M ValidationChallenge :=
  i <- random_below (Z.of_nat (length shapes)) ;;
  selectedShape <- defined (get shapes i) ;;
  selectedColor <-
    (if enableColorTint p
     then j <- random_below (Z.of_nat (length colors)) ;;
          c <- defined (get colors j) ;;
          ret (Some c)
     else ret None) ;;
  n <- random_below 4 ;;
  let numCorrectSectors := n + 2 in
  correctSectors <- fillSectors fuel numCorrectSectors [] ;;
  ret {| shape := selectedShape;
         color := selectedColor;
         correctSectors := sort correctSectors |}.

Definition handleCameraCapture (p : Props) (fuel : nat) (data : CapturedData)
    (st : State) : M State :=
  newChallenge <- generateChallenge p fuel ;;
  ret {| currentStep := validation;
         capturedData := Some data;
         challenge := Some newChallenge;
         validationSuccess := validationSuccess st;
         attemptCount := attemptCount st;
         isBlocked := isBlocked st |}.

(** The scoring expression of [handleValidationComplete]. *)
Definition isCorrect (correct selectedSectors : list Z) : bool :=
  (length selectedSectors =? length correct)%nat
  && every (fun sector => includes correct sector) selectedSectors
  && every (fun sector => includes selectedSectors sector) correct.

(** The calls of the completion callback, oldest first. *)
Definition Calls : Type := list (bool * Z).

Definition call_onComplete (p : Props) (success : bool) (attempts : Z)
    (calls : Calls) : Calls :=
  if onComplete p then push calls (success, attempts) else calls.

Definition handleValidationComplete (p : Props) (selectedSectors : list Z)
    (st : State) (calls : Calls) : State * Calls :=
  match challenge st with
  | None => (st, calls)
  | Some ch =>
      let newAttemptCount := attemptCount st + 1 in
      let correct := isCorrect (correctSectors ch) selectedSectors in
      let st1 :=
        {| currentStep := currentStep st;
           capturedData := capturedData st;
           challenge := challenge st;
           validationSuccess := correct;
           attemptCount := newAttemptCount;
           isBlocked := isBlocked st |} in
      if correct then
        ({| currentStep := result;
            capturedData := capturedData st1;
            challenge := challenge st1;
            validationSuccess := validationSuccess st1;
            attemptCount := attemptCount st1;
            isBlocked := isBlocked st1 |},
         call_onComplete p true newAttemptCount calls)
      else if newAttemptCount >=? maxAttempts p then
        ({| currentStep := result;
            capturedData := capturedData st1;
            challenge := challenge st1;
            validationSuccess := validationSuccess st1;
            attemptCount := attemptCount st1;
            isBlocked := true |},
         call_onComplete p false newAttemptCount calls)
      else
        ({| currentStep := result;
            capturedData := capturedData st1;
            challenge := challenge st1;
            validationSuccess := validationSuccess st1;
            attemptCount := attemptCount st1;
            isBlocked := isBlocked st1 |},
         calls)
  end.

Definition handleRetry (st : State) : State :=
  {| currentStep := camera;
     capturedData := None;
     challenge := None;
     validationSuccess := false;
     attemptCount := attemptCount st;
     isBlocked := isBlocked st |}.

(** The values the render passes down. *)
Definition toleranceLevel (p : Props) (st : State) : Z :=
  Z.max 1 (maxAttempts p - attemptCount st).

Definition canRetry (p : Props) (st : State) : bool :=
  negb (isBlocked st) && negb (validationSuccess st)
  && (attemptCount st <? maxAttempts p).

End CaptchaValidator.

(** ** CameraCapture.tsx: the capture step *)

Module CameraCapture.

Record VideoSize : Type := { width : Z; height : Z }.

(** [a || b] on numbers: [b] when [a] is zero. *)
Definition orElse (a b : Z) : Z := if a =? 0 then b else a.

(** The size recorded when the metadata of the video has loaded. *)
Definition onloadedmetadata (videoWidth videoHeight : Z) : VideoSize :=
  {| width := orElse videoWidth 640;
     height := orElse videoHeight 480 |}.

(** [handleCapture] once the canvas and its context are there: the canvas
    takes the size of the video and the square is scaled to it. *)
Definition handleCapture (videoWidth videoHeight : Z) (videoSize : VideoSize)
    (squarePosition : CaptchaValidator.Position) (imageData : string)
    : CaptchaValidator.CapturedData :=
  let canvas_width := orElse videoWidth (width videoSize) in
  let canvas_height := orElse videoHeight (height videoSize) in
  let scaleX := (inject_Z canvas_width / inject_Z (width videoSize))%Q in
  let scaleY := (inject_Z canvas_height / inject_Z (height videoSize))%Q in
  {| CaptchaValidator.imageData := imageData;
     CaptchaValidator.squarePosition :=
       {| CaptchaValidator.x := (CaptchaValidator.x squarePosition * scaleX)%Q;
          CaptchaValidator.y := (CaptchaValidator.y squarePosition * scaleY)%Q;
          CaptchaValidator.size :=
            (CaptchaValidator.size squarePosition * Qmin scaleX scaleY)%Q |} |}.

End CameraCapture.

(** ** ShapeValidation.tsx: the selection step *)

Module ShapeValidation.
Import JS.
Local Open Scope js_scope.

Record Props : Type :=
  { capturedData : CaptchaValidator.CapturedData;
    challenge : CaptchaValidator.ValidationChallenge;
    toleranceLevel : Z }.

Record WatermarkData : Type :=
  { sector : Z;
    shape : CaptchaValidator.ValidationShape;
    color : CaptchaValidator.ValidationColor;
    hasWatermark : bool }.

Definition shapes : list CaptchaValidator.ValidationShape :=
  [CaptchaValidator.triangle; CaptchaValidator.square; CaptchaValidator.circle].
Definition colors : list CaptchaValidator.ValidationColor :=
  [CaptchaValidator.red; CaptchaValidator.green; CaptchaValidator.blue].

(** The noise threshold: the double that the literal [0.3] denotes,
    5404319552844595 / 2^54. *)
Definition noise : Q := 5404319552844595 # 18014398509481984.

(** One iteration of the [for] loop: [||] draws only when the sector is not
    a correct one; the shape and the colour are always drawn, in that
    order. *)
Definition sectorEntry (ch : CaptchaValidator.ValidationChallenge) (i : Z)
    : M WatermarkData :=
  hasWatermark' <-
    (if includes (CaptchaValidator.correctSectors ch) i
     then ret true
     else r <- Math_random ;; ret (lt r noise)) ;;
  si <- random_below (Z.of_nat (length shapes)) ;;
  shape' <- defined (get shapes si) ;;
  ci <- random_below (Z.of_nat (length colors)) ;;
  color' <- defined (get colors ci) ;;
  ret {| sector := i;
         shape := shape';
         color := color';
         hasWatermark := hasWatermark' |}.

Fixpoint forSectors (indices : list Z)
    (ch : CaptchaValidator.ValidationChallenge)
    (data : list (option WatermarkData)) : M (list (option WatermarkData)) :=
  match indices with
  | [] => ret data
  | i :: indices' =>
      w <- sectorEntry ch i ;;
      forSectors indices' ch (push data (Some w))
  end.

(** The entry written over every correct sector; [challenge.color || 'red']. *)
Definition required (ch : CaptchaValidator.ValidationChallenge)
    (sectorIndex : Z) : WatermarkData :=
  {| sector := sectorIndex;
     shape := CaptchaValidator.shape ch;
     color := match CaptchaValidator.color ch with
              | Some c => c
              | None => CaptchaValidator.red
              end;
     hasWatermark := true |}.

Definition forEachCorrect (ch : CaptchaValidator.ValidationChallenge)
    (data : list (option WatermarkData)) : list (option WatermarkData) :=
  fold_left (fun data' sectorIndex => set data' sectorIndex (required ch sectorIndex))
            (CaptchaValidator.correctSectors ch) data.

Definition watermarkData (ch : CaptchaValidator.ValidationChallenge)
    : M (list (option WatermarkData)) :=
  data <- forSectors (map Z.of_nat (seq 0 16)) ch [] ;;
  ret (forEachCorrect ch data).

(** The draws one iteration of the loop reads, and those read by the
    iterations [a], ..., [a + n - 1]. *)
Definition drawsOf (ch : CaptchaValidator.ValidationChallenge) (i : nat) : nat :=
  if includes (CaptchaValidator.correctSectors ch) (Z.of_nat i) then 2 else 3.

Definition drawsIn (ch : CaptchaValidator.ValidationChallenge) (a n : nat) : nat :=
  list_sum (map (drawsOf ch) (seq a n)).

(** The entry the loop makes for sector [i] when it starts reading the
    stream at position [d]. *)
Definition drawn (ch : CaptchaValidator.ValidationChallenge) (rnd : Random)
    (d i : nat) (w : WatermarkData) : Prop :=
  sector w = Z.of_nat i
  /\ (includes (CaptchaValidator.correctSectors ch) (Z.of_nat i) = true ->
      hasWatermark w = true
      /\ get shapes (Math_floor (times (rnd d) 3)) = Some (shape w)
      /\ get colors (Math_floor (times (rnd (S d)) 3)) = Some (color w))
  /\ (includes (CaptchaValidator.correctSectors ch) (Z.of_nat i) = false ->
      hasWatermark w = lt (rnd d) noise
      /\ get shapes (Math_floor (times (rnd (S d)) 3)) = Some (shape w)
      /\ get colors (Math_floor (times (rnd (S (S d))) 3)) = Some (color w)).

Definition handleSectorClick (prev : list Z) (sectorIndex : Z) : list Z :=
  if includes prev sectorIndex
  then filter (fun index => negb (index =? sectorIndex)) prev
  else prev ++ [sectorIndex].

(** The submission: the parent's [onValidate] applied to the selection. *)
Definition handleValidate {R : Type} (p : Props) (onValidate : list Z -> R)
    (selectedSectors : list Z) : R :=
  onValidate selectedSectors.

(** The only use of [toleranceLevel]: the reduced-tolerance notice. *)
Definition reducedToleranceNotice (p : Props) : bool := toleranceLevel p <? 3.

(** The [Validate] button is disabled while nothing is selected. *)
Definition validateDisabled (selectedSectors : list Z) : bool :=
  (length selectedSectors =? 0)%nat.

(** Pressing [Validate]: nothing happens on a disabled button. *)
Definition pressValidate {R : Type} (p : Props) (onValidate : list Z -> R)
    (selectedSectors : list Z) : option R :=
  if validateDisabled selectedSectors then None
  else Some (handleValidate p onValidate selectedSectors).

(** The sixteen buttons of the grid, [Array.from({ length: 16 })]. *)
Definition buttons : list Z := map Z.of_nat (seq 0 16).

(** The selection after a series of clicks on a freshly mounted step. *)
Definition clicked (clicks : list Z) : list Z :=
  fold_left handleSectorClick clicks [].

(** The cell of a button: [Math.floor(index / 4)] and [index % 4]. *)
Definition row (index : Z) : Z := Math_floor (inject_Z index / 4).
Definition col (index : Z) : Z := Z.rem index 4.

(** [renderWatermark]: nothing for a sector without a watermark; otherwise
    the shape, in the class of its colour when the challenge has a colour and
    in gray when it has none. *)
Inductive ColorClass : Type :=
| text_red_500
| text_green_500
| text_blue_500
| text_gray_600.

Definition colorClass (ch : CaptchaValidator.ValidationChallenge)
    (watermark : WatermarkData) : ColorClass :=
  match CaptchaValidator.color ch with
  | Some _ =>
      match color watermark with
      | CaptchaValidator.red => text_red_500
      | CaptchaValidator.green => text_green_500
      | CaptchaValidator.blue => text_blue_500
      end
  | None => text_gray_600
  end.

Definition renderWatermark (ch : CaptchaValidator.ValidationChallenge)
    (watermark : WatermarkData)
    : option (CaptchaValidator.ValidationShape * ColorClass) :=
  if negb (hasWatermark watermark) then None
  else Some (shape watermark, colorClass ch watermark).

(** What the button of a sector shows: [renderWatermark(watermarkData[index])].
    The outer [None] is the exception raised on an empty slot. *)
Definition renderSector (ch : CaptchaValidator.ValidationChallenge)
    (data : list (option WatermarkData)) (index : Z)
    : option (option (CaptchaValidator.ValidationShape * ColorClass)) :=
  match get data index with
  | Some (Some watermark) => Some (renderWatermark ch watermark)
  | _ => None
  end.

End ShapeValidation.

(** ** ValidationResult: the result step *)

Module ValidationResult.

Record Props : Type :=
  { success : bool;
    isBlocked : bool;
    attemptCount : Z;
    maxAttempts : Z;
    canRetry : bool }.

(** What the component returns: the success screen, the blocked screen, or
    the failure screen, which carries the retry button when [canRetry]. *)
Inductive Screen : Type :=
| Successful
| Blocked
| Failed (retryButton : bool).

Definition render (p : Props) : Screen :=
  if success p then Successful
  else if isBlocked p then Blocked
  else Failed (canRetry p).

(** The line under the attempt count on the failure screen: the number of
    attempts left and whether the word is in the plural. *)
Definition remainingNotice (p : Props) : option (Z * bool) :=
  if success p then None
  else if isBlocked p then None
  else if canRetry p
       then Some (maxAttempts p - attemptCount p,
                  negb (maxAttempts p - attemptCount p =? 1))
       else None.

End ValidationResult.

(** ** The session: what is rendered and which events it admits *)

Module Session.
Import JS CaptchaValidator.

Inductive View : Type :=
| CameraCaptureView
| ShapeValidationView (p : ShapeValidation.Props)
| ValidationResultView (p : ValidationResult.Props)
| NoView.

(** The three conditional blocks of the JSX. *)
Definition render (p : Props) (st : State) : View :=
  match currentStep st with
  | camera => CameraCaptureView
  | validation =>
      match capturedData st, challenge st with
      | Some data, Some ch =>
          ShapeValidationView
            {| ShapeValidation.capturedData := data;
               ShapeValidation.challenge := ch;
               ShapeValidation.toleranceLevel := toleranceLevel p st |}
      | _, _ => NoView
      end
  | result =>
      ValidationResultView
        {| ValidationResult.success := validationSuccess st;
           ValidationResult.isBlocked := isBlocked st;
           ValidationResult.attemptCount := attemptCount st;
           ValidationResult.maxAttempts := maxAttempts p;
           ValidationResult.canRetry := canRetry p st |}
  end.

(** An event is a handler called by the component on screen.  A capture
    carries the random stream, the position the generation reads it from and
    the fuel of its loop. *)
Inductive Event : Type :=
| Capture (data : CapturedData) (rnd : Random) (k fuel : nat)
| Submit (selectedSectors : list Z)
| Retry.

Definition Config : Type := (State * Calls)%type.

Definition start : Config := (initial, []).

(** One event; [None] when no component on screen can raise it (or the
    generation has no result).  The events admitted are a superset of those
    the components raise: a submission is admitted with an empty selection
    too, for which the [Validate] button is disabled, and a capture whatever
    the state of the camera.  What holds of every configuration reached by
    these events holds of every configuration of the widget. *)
Definition exec (p : Props) (ev : Event) (c : Config) : option Config :=
  let (st, calls) := c in
  match ev, render p st with
  | Capture data rnd k fuel, CameraCaptureView =>
      match handleCameraCapture p fuel data st rnd k with
      | Some (st', _) => Some (st', calls)
      | None => None
      end
  | Submit selectedSectors, ShapeValidationView sp =>
      Some (ShapeValidation.handleValidate sp
              (fun sel => handleValidationComplete p sel st calls)
              selectedSectors)
  | Retry, ValidationResultView rp =>
      match ValidationResult.render rp with
      | ValidationResult.Failed true => Some (handleRetry st, calls)
      | _ => None
      end
  | _, _ => None
  end.

(** The configurations after each event of a sequence. *)
Fixpoint run (p : Props) (evs : list Event) (c : Config)
    : option (list Config) :=
  match evs with
  | [] => Some []
  | ev :: evs' =>
      match exec p ev c with
      | Some c' => option_map (cons c') (run p evs' c')
      | None => None
      end
  end.

Definition step (p : Props) (c c' : Config) : Prop :=
  exists ev, exec p ev c = Some c'.

Inductive reachable (p : Props) : Config -> Prop :=
| reachable_start : reachable p start
| reachable_step c c' : reachable p c -> step p c c' -> reachable p c'.

(** Any number of events later. *)
Inductive later (p : Props) (c : Config) : Config -> Prop :=
| later_now : later p c c
| later_step c' c'' : later p c c' -> step p c' c'' -> later p c c''.

(** The phase of the session, read off the screen. *)
Inductive Phase : Type :=
| awaiting_capture
| awaiting_selection
| success
| retry_available
| blocked.

Definition phase (p : Props) (st : State) : option Phase :=
  match render p st with
  | CameraCaptureView => Some awaiting_capture
  | ShapeValidationView _ => Some awaiting_selection
  | ValidationResultView rp =>
      match ValidationResult.render rp with
      | ValidationResult.Successful => Some success
      | ValidationResult.Blocked => Some blocked
      | ValidationResult.Failed true => Some retry_available
      | ValidationResult.Failed false => None
      end
  | NoView => None
  end.

Definition terminal (ph : option Phase) : bool :=
  match ph with
  | Some success | Some blocked => true
  | _ => false
  end.

(** The challenge on screen scores the selection correct. *)
Definition scores (st : State) (selectedSectors : list Z) : bool :=
  match challenge st with
  | Some ch => isCorrect (correctSectors ch) selectedSectors
  | None => false
  end.

(** What holds of every configuration of a session: outside the result
    step nothing is decided and the callback has not run; in the result
    step the session has succeeded, or is blocked, or may retry, and the
    callback has run once in the first two cases only. *)
Definition consistent (p : Props) (c : Config) : Prop :=
  let (st, calls) := c in
  match currentStep st with
  | result =>
      (validationSuccess st = true /\ isBlocked st = false
       /\ calls = call_onComplete p true (attemptCount st) [])
      \/ (validationSuccess st = false /\ isBlocked st = true
          /\ maxAttempts p <= attemptCount st
          /\ calls = call_onComplete p false (attemptCount st) [])
      \/ (validationSuccess st = false /\ isBlocked st = false
          /\ attemptCount st < maxAttempts p
          /\ calls = [])
  | _ => validationSuccess st = false /\ isBlocked st = false /\ calls = []
  end.

(** The line of the header: shown once an attempt has been made. *)
Definition attemptLabel (p : Props) (st : State) : option (Z * Z) :=
  if attemptCount st >? 0 then Some (attemptCount st, maxAttempts p) else None.

(** The submissions among the events of a sequence. *)
Fixpoint submissions (evs : list Event) : Z :=
  match evs with
  | [] => 0
  | Submit _ :: evs' => 1 + submissions evs'
  | _ :: evs' => submissions evs'
  end.

(** What the attempt count and the two nullable cells are in each step. *)
Definition bounded (p : Props) (st : State) : Prop :=
  match currentStep st with
  | camera =>
      capturedData st = None /\ challenge st = None
      /\ (attemptCount st = 0 \/ 0 < attemptCount st < maxAttempts p)
  | validation =>
      capturedData st <> None /\ challenge st <> None
      /\ (attemptCount st = 0 \/ 0 < attemptCount st < maxAttempts p)
  | result =>
      1 <= attemptCount st <= Z.max 1 (maxAttempts p)
      /\ (validationSuccess st = false ->
          if isBlocked st
          then attemptCount st = Z.max 1 (maxAttempts p)
          else attemptCount st < maxAttempts p)
  end.

End Session.

(** ** The demo page (Index) *)

Module Index.

Record State : Type :=
  { showCaptcha : bool;
    enableColorTint : bool;
    maxAttempts : Z;
    completionResult : option (bool * Z) }.

Definition initial : State :=
  {| showCaptcha := false;
     enableColorTint := false;
     maxAttempts := 3;
     completionResult := None |}.

Definition handleCaptchaComplete (success : bool) (attempts : Z) (st : State)
    : State :=
  {| showCaptcha := showCaptcha st;
     enableColorTint := enableColorTint st;
     maxAttempts := maxAttempts st;
     completionResult := Some (success, attempts) |}.

Definition resetDemo (st : State) : State :=
  {| showCaptcha := false;
     enableColorTint := enableColorTint st;
     maxAttempts := maxAttempts st;
     completionResult := None |}.

Definition setEnableColorTint (checked : bool) (st : State) : State :=
  {| showCaptcha := showCaptcha st;
     enableColorTint := checked;
     maxAttempts := maxAttempts st;
     completionResult := completionResult st |}.

Definition setMaxAttempts (value : Z) (st : State) : State :=
  {| showCaptcha := showCaptcha st;
     enableColorTint := enableColorTint st;
     maxAttempts := value;
     completionResult := completionResult st |}.

Definition setShowCaptcha (show : bool) (st : State) : State :=
  {| showCaptcha := show;
     enableColorTint := enableColorTint st;
     maxAttempts := maxAttempts st;
     completionResult := completionResult st |}.

(** The values of the [option] elements of the select. *)
Definition attemptOptions : list Z := [1; 2; 3; 5].

(** The props the page gives the validator. *)
Definition validatorProps (st : State) : CaptchaValidator.Props :=
  {| CaptchaValidator.onComplete := true;
     CaptchaValidator.enableColorTint := enableColorTint st;
     CaptchaValidator.maxAttempts := maxAttempts st |}.

Inductive Panel : Type :=
| ConfigurationPanel
| ValidatorPanel (p : CaptchaValidator.Props)
| ResultCard (success : bool) (attempts : Z).

Definition isNull {A : Type} (o : option A) : bool :=
  match o with
  | Some _ => false
  | None => true
  end.

(** The three conditional blocks of the page. *)
Definition render (st : State) : list Panel :=
  (if negb (showCaptcha st) && isNull (completionResult st)
   then [ConfigurationPanel] else [])
  ++ (if showCaptcha st && isNull (completionResult st)
      then [ValidatorPanel (validatorProps st)] else [])
  ++ (match completionResult st with
      | Some (success, attempts) => [ResultCard success attempts]
      | None => []
      end).

(** The page together with the state of the validator while it is mounted. *)
Record App : Type :=
  { page : State;
    validator : option CaptchaValidator.State }.

Definition boot : App := {| page := initial; validator := None |}.

Inductive Event : Type :=
| SetColorTint (checked : bool)
| SetMaxAttempts (value : Z)
| Start
| Widget (ev : Session.Event)
| Reset.

Definition configuring (st : State) : bool :=
  negb (showCaptcha st) && isNull (completionResult st).

(** One event of the page.  An event of the validator runs its handler; the
    calls the handler makes reach [handleCaptchaComplete], and the validator
    stays mounted only while its block is rendered. *)
Definition exec (ev : Event) (app : App) : option App :=
  let st := page app in
  match ev with
  | SetColorTint checked =>
      if configuring st
      then Some {| page := setEnableColorTint checked st; validator := validator app |}
      else None
  | SetMaxAttempts value =>
      if configuring st && existsb (Z.eqb value) attemptOptions
      then Some {| page := setMaxAttempts value st; validator := validator app |}
      else None
  | Start =>
      if configuring st
      then Some {| page := setShowCaptcha true st;
                   validator := Some CaptchaValidator.initial |}
      else None
  | Widget ev' =>
      match validator app with
      | Some vst =>
          match Session.exec (validatorProps st) ev' (vst, []) with
          | Some (vst', calls) =>
              let st' :=
                fold_left (fun s call => handleCaptchaComplete (fst call) (snd call) s)
                          calls st in
              Some {| page := st';
                      validator := if showCaptcha st' && isNull (completionResult st')
                                   then Some vst' else None |}
          | None => None
          end
      | None => None
      end
  | Reset =>
      match completionResult st with
      | Some _ => Some {| page := resetDemo st; validator := None |}
      | None => None
      end
  end.

Inductive reachable : App -> Prop :=
| reachable_boot : reachable boot
| reachable_exec ev app app' :
    reachable app -> exec ev app = Some app' -> reachable app'.

(** What holds of the page and its validator at any time. *)
Definition coherent (app : App) : Prop :=
  In (maxAttempts (page app)) attemptOptions
  /\ match validator app with
     | Some vst =>
         showCaptcha (page app) = true
         /\ completionResult (page app) = None
         /\ Session.reachable (validatorProps (page app)) (vst, [])
     | None =>
         match completionResult (page app) with
         | Some (success, attempts) =>
             1 <= attempts <= maxAttempts (page app)
             /\ (success = false -> attempts = maxAttempts (page app))
         | None => showCaptcha (page app) = false
         end
     end.

End Index.

(** ** Sample inputs *)

Module Sample.
Import JS CaptchaValidator Session.

Definition props : Props :=
  {| onComplete := true; enableColorTint := false; maxAttempts := 3 |}.

Definition data : CapturedData :=
  {| imageData := "data:image/jpeg;base64,/9j/4AAQ";
     squarePosition := {| x := 160 # 1; y := 120 # 1; size := 200 # 1 |} |}.

Definition challenge : ValidationChallenge :=
  {| shape := square; color := None; correctSectors := [10; 2] |}.

(** Draws that pick the square, two sectors, then sector 2 and sector 10. *)
Definition draws : list Q := [1 # 2; 0 # 1; 1 # 8; 5 # 8].

Definition capture : Event := Capture data (tape draws) 0 8.

(** The state that capture leaves a fresh session in. *)
Definition selecting : State :=
  {| currentStep := validation;
     capturedData := Some data;
     CaptchaValidator.challenge := Some challenge;
     validationSuccess := false;
     attemptCount := 0;
     isBlocked := false |}.

Definition three_failures : list Event :=
  [capture; Submit [2]; Retry; capture; Submit [10]; Retry; capture; Submit [2; 10; 3]].

End Sample.

(** * Properties *)

(** ** Scoring *)

Section Scoring.
Import JS CaptchaValidator.

Lemma includes_In (xs : list Z) (x : Z) : includes xs x = true <-> In x xs.
Proof.
  unfold includes. rewrite existsb_exists. split.
  - intros [y [Hy Heq]]. apply Z.eqb_eq in Heq. now subst.
  - intros Hx. exists x. split; [assumption | apply Z.eqb_refl].
Qed.

Lemma includes_not_In (xs : list Z) (x : Z) :
  includes xs x = false <-> ~ In x xs.
Proof.
  rewrite <- includes_In. destruct (includes xs x); intuition congruence.
Qed.

Lemma every_includes (xs ys : list Z) :
  every (fun sector => includes ys sector) xs = true <-> incl xs ys.
Proof.
  unfold every, incl. rewrite forallb_forall.
  split; intros H a Ha; apply includes_In; auto.
Qed.

(** The scoring expression, conjunct by conjunct. *)
Lemma isCorrect_true (correct selected : list Z) :
  isCorrect correct selected = true <->
  length selected = length correct /\ incl selected correct /\ incl correct selected.
Proof.
  unfold isCorrect.
  rewrite !andb_true_iff, Nat.eqb_eq, !every_includes. tauto.
Qed.

(** A list as long as a duplicate-free list that it covers is duplicate-free
    itself. *)
Lemma isCorrect_NoDup (correct selected : list Z) :
  NoDup correct -> isCorrect correct selected = true -> NoDup selected.
Proof.
  intros Hnd Hc. apply isCorrect_true in Hc. destruct Hc as (Hlen & _ & Hcs).
  apply NoDup_incl_NoDup with (l := correct); [assumption | lia | assumption].
Qed.

Lemma NoDup_same_members_length (xs ys : list Z) :
  NoDup xs -> NoDup ys -> (forall x, In x xs <-> In x ys) ->
  length xs = length ys.
Proof.
  intros Hx Hy Hm. apply Nat.le_antisymm; apply NoDup_incl_length;
    try assumption; intros a Ha; apply Hm; assumption.
Qed.

End Scoring.

(** C1. For a duplicate-free correct list [correct], a submission scores
    [true] exactly when it has the same length and each list contains the
    other; that is, exactly when the submission is itself duplicate-free and
    has the same members.  A submission holding a sector outside [correct]
    (one added or substituted) or missing a sector of [correct] (one omitted
    or substituted) scores [false]. *)
Theorem isCorrect_iff_set_equality (correct selected : list Z) :
  NoDup correct ->
  (CaptchaValidator.isCorrect correct selected = true <->
     length selected = length correct
     /\ (forall x, In x selected -> In x correct)
     /\ (forall x, In x correct -> In x selected))
  /\ (CaptchaValidator.isCorrect correct selected = true <->
        NoDup selected /\ (forall x, In x selected <-> In x correct))
  /\ ((exists x, In x selected /\ ~ In x correct) ->
        CaptchaValidator.isCorrect correct selected = false)
  /\ ((exists x, In x correct /\ ~ In x selected) ->
        CaptchaValidator.isCorrect correct selected = false).
Proof.
  intros Hnd.
  assert (Hset : CaptchaValidator.isCorrect correct selected = true <->
                 NoDup selected /\ (forall x, In x selected <-> In x correct)).
  { split.
    - intros Hc. split; [now apply (isCorrect_NoDup correct) |].
      apply isCorrect_true in Hc. destruct Hc as (_ & Hsc & Hcs).
      intros x. split; [apply Hsc | apply Hcs].
    - intros [Hs Hm]. apply isCorrect_true. repeat split.
      + now apply NoDup_same_members_length.
      + intros x Hx. now apply Hm.
      + intros x Hx. now apply Hm. }
  split; [apply isCorrect_true |]. split; [exact Hset |].
  split; intros [x [Hin Hout]];
    destruct (CaptchaValidator.isCorrect correct selected) eqn:E; try reflexivity;
    exfalso; apply Hout; apply Hset; auto.
Qed.

Lemma isCorrect_iff_set_equality_witness :
  NoDup [2; 5; 9; 13]
  /\ CaptchaValidator.isCorrect [2; 5; 9; 13] [13; 2; 9; 5] = true
  /\ CaptchaValidator.isCorrect [2; 5; 9; 13] [2; 5; 9] = false.
Proof.
  assert (Hnd : NoDup [2; 5; 9; 13]).
  { repeat constructor; simpl; intuition lia. }
  split; [exact Hnd |]. split; [reflexivity |].
  destruct (isCorrect_iff_set_equality [2; 5; 9; 13] [2; 5; 9] Hnd)
    as (_ & _ & _ & Homit).
  apply Homit. exists 13. simpl. intuition lia.
Defined.

(** C10. Against a duplicate-free correct list, a submission that repeats an
    element scores [false], whatever its distinct elements are. *)
Theorem isCorrect_duplicate_false (correct selected : list Z) :
  NoDup correct -> ~ NoDup selected ->
  CaptchaValidator.isCorrect correct selected = false.
Proof.
  intros Hnd Hdup.
  destruct (CaptchaValidator.isCorrect correct selected) eqn:E; [| reflexivity].
  exfalso. apply Hdup. now apply (isCorrect_NoDup correct).
Qed.

Lemma isCorrect_duplicate_false_witness :
  (forall x, In x [2; 5; 5] <-> In x [2; 5])
  /\ CaptchaValidator.isCorrect [2; 5] [2; 5; 5] = false.
Proof.
  split; [simpl; intuition lia |].
  apply isCorrect_duplicate_false.
  - repeat constructor; simpl; intuition lia.
  - intros H. inversion H as [| a l Hnot Hrest]; subst.
    inversion Hrest as [| b l' Hnot' _]; subst. apply Hnot'. now left.
Defined.

(** ** Attempts and phases *)

Section Attempts.
Import JS CaptchaValidator Session.

Variable p : Props.

(** The three ways an event fires. *)
Lemma exec_inv (ev : Event) (st : State) (calls : Calls) (c' : Config) :
  exec p ev (st, calls) = Some c' ->
  (currentStep st = camera /\
   exists data rnd k fuel st' k',
     ev = Capture data rnd k fuel
     /\ handleCameraCapture p fuel data st rnd k = Some (st', k')
     /\ c' = (st', calls))
  \/ (currentStep st = validation /\
      exists data ch sel,
        capturedData st = Some data /\ challenge st = Some ch
        /\ ev = Submit sel
        /\ c' = handleValidationComplete p sel st calls)
  \/ (currentStep st = result /\ validationSuccess st = false
      /\ isBlocked st = false /\ canRetry p st = true
      /\ ev = Retry /\ c' = (handleRetry st, calls)).
Proof.
  unfold exec, render. intros H.
  destruct (currentStep st) eqn:Hstep.
  - left. split; [reflexivity |].
    destruct ev as [data rnd k fuel | sel |]; try discriminate.
    destruct (handleCameraCapture p fuel data st rnd k) as [[st' k'] |] eqn:Hc;
      [| discriminate].
    injection H as <-. exists data, rnd, k, fuel, st', k'. auto.
  - right; left. split; [reflexivity |].
    destruct (capturedData st) as [data |] eqn:Hd;
      destruct (challenge st) as [ch |] eqn:Hch;
      destruct ev as [? ? ? ? | sel |]; try discriminate.
    injection H as <-. exists data, ch, sel. auto.
  - right; right.
    destruct ev as [? ? ? ? | sel |]; try discriminate.
    unfold ValidationResult.render in H. simpl in H.
    destruct (validationSuccess st); [discriminate |].
    destruct (isBlocked st); [discriminate |].
    destruct (canRetry p st); [| discriminate].
    injection H as <-. auto 6.
Qed.

Lemma handleCameraCapture_inv fuel data st rnd k st' k' :
  handleCameraCapture p fuel data st rnd k = Some (st', k') ->
  exists ch,
    generateChallenge p fuel rnd k = Some (ch, k')
    /\ st' = {| currentStep := validation;
                capturedData := Some data;
                challenge := Some ch;
                validationSuccess := validationSuccess st;
                attemptCount := attemptCount st;
                isBlocked := isBlocked st |}.
Proof.
  unfold handleCameraCapture, bind, ret. intros H.
  destruct (generateChallenge p fuel rnd k) as [[ch k1] |]; [| discriminate].
  injection H as <- <-. exists ch. auto.
Qed.

Lemma consistent_start : consistent p start.
Proof. simpl. auto. Qed.

Lemma consistent_exec (ev : Event) (c c' : Config) :
  consistent p c -> exec p ev c = Some c' -> consistent p c'.
Proof.
  destruct c as [st calls]. intros Hc Hex.
  apply exec_inv in Hex.
  destruct Hex as [(Hstep & data & rnd & k & fuel & st' & k' & -> & Hcap & ->)
                  | [(Hstep & data & ch & sel & Hd & Hch & -> & ->)
                    | (Hstep & Hs & Hb & Hr & -> & ->)]].
  - apply handleCameraCapture_inv in Hcap. destruct Hcap as (ch & _ & ->).
    unfold consistent in *. rewrite Hstep in Hc. simpl. exact Hc.
  - unfold consistent in Hc. rewrite Hstep in Hc.
    destruct Hc as (Hs & Hb & ->).
    unfold handleValidationComplete. rewrite Hch.
    destruct (isCorrect (correctSectors ch) sel) eqn:Hcorrect.
    + simpl. left. auto.
    + destruct (attemptCount st + 1 >=? maxAttempts p) eqn:Hmax; simpl.
      * right; left. repeat split; auto. lia.
      * right; right. repeat split; auto. lia.
  - unfold consistent in Hc. rewrite Hstep in Hc. simpl.
    destruct Hc as [(Hs' & _) | [(_ & Hb' & _) | (_ & _ & _ & ->)]];
      [congruence | congruence | auto].
Qed.

Lemma consistent_reachable (c : Config) : reachable p c -> consistent p c.
Proof.
  induction 1 as [| c c' _ IH [ev Hex]].
  - apply consistent_start.
  - eapply consistent_exec; eassumption.
Qed.

Lemma run_reachable (evs : list Event) :
  forall c cs, reachable p c -> run p evs c = Some cs -> Forall (reachable p) cs.
Proof.
  induction evs as [| ev evs IH]; intros c cs Hr Hrun; simpl in Hrun.
  - injection Hrun as <-. constructor.
  - destruct (exec p ev c) as [c' |] eqn:Hex; [| discriminate].
    destruct (run p evs c') as [cs' |] eqn:Hrest; [| discriminate].
    injection Hrun as <-.
    assert (Hr' : reachable p c') by (eapply reachable_step; [eassumption | now exists ev]).
    constructor; [assumption | eapply IH; eassumption].
Qed.

(** A terminal phase admits no event. *)
Lemma terminal_final (ev : Event) (st : State) (calls : Calls) :
  terminal (phase p st) = true -> exec p ev (st, calls) = None.
Proof.
  unfold phase, exec. destruct (render p st) as [| sp | rp |]; simpl;
    try discriminate.
  destruct ev; try reflexivity.
  destruct (ValidationResult.render rp) as [| | []]; simpl;
    try reflexivity; discriminate.
Qed.

(** The phase of a consistent configuration, and its calls. *)
Lemma consistent_calls (st : State) (calls : Calls) :
  consistent p (st, calls) ->
  calls = if terminal (phase p st)
          then call_onComplete p (validationSuccess st) (attemptCount st) []
          else [].
Proof.
  unfold consistent, phase, render.
  destruct (currentStep st).
  - now intros (_ & _ & ->).
  - intros (_ & _ & ->).
    now destruct (capturedData st), (challenge st).
  - unfold ValidationResult.render, canRetry. simpl.
    intros [(Hs & Hb & ->) | [(Hs & Hb & _ & ->) | (Hs & Hb & Hlt & ->)]];
      rewrite Hs, ?Hb; simpl; try reflexivity.
    apply Z.ltb_lt in Hlt. now rewrite Hlt.
Qed.

Lemma run_cons (ev : Event) (evs : list Event) (c : Config) (cs : list Config) :
  run p (ev :: evs) c = Some cs ->
  exists c' cs', exec p ev c = Some c' /\ run p evs c' = Some cs' /\ cs = c' :: cs'.
Proof.
  simpl. destruct (exec p ev c) as [c' |] eqn:Hex; [| discriminate].
  destruct (run p evs c') as [cs' |] eqn:Hrun; simpl; [| discriminate].
  intros H. injection H as <-. exists c', cs'. auto.
Qed.

Lemma exec_Capture data rnd k fuel st calls c' :
  exec p (Capture data rnd k fuel) (st, calls) = Some c' ->
  currentStep st = camera /\
  exists ch k',
    generateChallenge p fuel rnd k = Some (ch, k')
    /\ c' = ({| currentStep := validation;
                capturedData := Some data;
                challenge := Some ch;
                validationSuccess := validationSuccess st;
                attemptCount := attemptCount st;
                isBlocked := isBlocked st |}, calls).
Proof.
  intros H. apply exec_inv in H.
  destruct H as [(Hstep & d & r & k0 & f & st' & k' & Hev & Hcap & ->)
                | [(_ & _ & _ & ? & _ & _ & Hev & _) | (_ & _ & _ & _ & Hev & _)]];
    try discriminate.
  injection Hev as <- <- <- <-. split; [assumption |].
  apply handleCameraCapture_inv in Hcap. destruct Hcap as (ch & Hgen & ->).
  exists ch, k'. auto.
Qed.

Lemma exec_Submit sel st calls c' :
  exec p (Submit sel) (st, calls) = Some c' ->
  currentStep st = validation
  /\ (exists ch, challenge st = Some ch)
  /\ c' = handleValidationComplete p sel st calls.
Proof.
  intros H. apply exec_inv in H.
  destruct H as [(_ & ? & ? & ? & ? & ? & ? & Hev & _)
                | [(Hstep & d & ch & s & _ & Hch & Hev & ->) | (_ & _ & _ & _ & Hev & _)]];
    try discriminate.
  injection Hev as <-. eauto.
Qed.

Lemma exec_Retry st calls c' :
  exec p Retry (st, calls) = Some c' ->
  currentStep st = result /\ canRetry p st = true /\ c' = (handleRetry st, calls).
Proof.
  intros H. apply exec_inv in H.
  destruct H as [(_ & ? & ? & ? & ? & ? & ? & Hev & _)
                | [(_ & ? & ? & ? & _ & _ & Hev & _) | (Hstep & _ & _ & Hr & _ & ->)]];
    try discriminate.
  auto.
Qed.

(** One capture followed by one incorrect submission. *)
Lemma incorrect_cycle data rnd k fuel sel st calls c1 c2 :
  exec p (Capture data rnd k fuel) (st, calls) = Some c1 ->
  exec p (Submit sel) c1 = Some c2 ->
  scores (fst c1) sel = false ->
  snd c1 = calls
  /\ attemptCount (fst c1) = attemptCount st
  /\ exists ch,
      c2 = ({| currentStep := result;
               capturedData := Some data;
               challenge := Some ch;
               validationSuccess := false;
               attemptCount := attemptCount st + 1;
               isBlocked := if attemptCount st + 1 >=? maxAttempts p
                            then true else isBlocked st |},
            if attemptCount st + 1 >=? maxAttempts p
            then call_onComplete p false (attemptCount st + 1) calls
            else calls).
Proof.
  intros Hcap Hsub Hwrong.
  apply exec_Capture in Hcap. destruct Hcap as (_ & ch & k' & _ & ->).
  apply exec_Submit in Hsub. destruct Hsub as (_ & _ & ->).
  unfold scores in Hwrong. simpl in Hwrong.
  split; [reflexivity |]. split; [reflexivity |]. exists ch.
  unfold handleValidationComplete. simpl. rewrite Hwrong.
  now destruct (attemptCount st + 1 >=? maxAttempts p).
Qed.

End Attempts.

(** C2. With [maxAttempts = 3], three capture-and-submit cycles whose
    submissions all score incorrect, with a retry between them, pass through
    the phases retry-available, retry-available and blocked; the callback is
    not called before the third submission, which calls it once, with
    [(false, 3)]. *)
Theorem blocking_boundary (p : CaptchaValidator.Props)
    d1 r1 k1 f1 s1 d2 r2 k2 f2 s2 d3 r3 k3 f3 s3
    (c1 c2 c3 c4 c5 c6 c7 c8 : Session.Config) :
  CaptchaValidator.maxAttempts p = 3 ->
  CaptchaValidator.onComplete p = true ->
  Session.run p [Session.Capture d1 r1 k1 f1; Session.Submit s1; Session.Retry;
                 Session.Capture d2 r2 k2 f2; Session.Submit s2; Session.Retry;
                 Session.Capture d3 r3 k3 f3; Session.Submit s3] Session.start
    = Some [c1; c2; c3; c4; c5; c6; c7; c8] ->
  Session.scores (fst c1) s1 = false ->
  Session.scores (fst c4) s2 = false ->
  Session.scores (fst c7) s3 = false ->
  map (fun c => Session.phase p (fst c)) [c2; c5; c8]
    = [Some Session.retry_available; Some Session.retry_available;
       Some Session.blocked]
  /\ map snd [c1; c2; c3; c4; c5; c6; c7] = [[]; []; []; []; []; []; []]
  /\ snd c8 = [(false, 3)].
Proof.
  intros Hmax Hcb Hrun H1 H2 H3.
  apply run_cons in Hrun. destruct Hrun as (x1 & t1 & E1 & Hrun & Q1).
  apply run_cons in Hrun. destruct Hrun as (x2 & t2 & E2 & Hrun & ->).
  apply run_cons in Hrun. destruct Hrun as (x3 & t3 & E3 & Hrun & ->).
  apply run_cons in Hrun. destruct Hrun as (x4 & t4 & E4 & Hrun & ->).
  apply run_cons in Hrun. destruct Hrun as (x5 & t5 & E5 & Hrun & ->).
  apply run_cons in Hrun. destruct Hrun as (x6 & t6 & E6 & Hrun & ->).
  apply run_cons in Hrun. destruct Hrun as (x7 & t7 & E7 & Hrun & ->).
  apply run_cons in Hrun. destruct Hrun as (x8 & t8 & E8 & Hrun & ->).
  injection Q1 as -> -> -> -> -> -> -> -> _. clear Hrun.
  pose proof (incorrect_cycle p _ _ _ _ _ _ _ _ _ E1 E2 H1) as (Hc1 & _ & ch1 & ->).
  rewrite Hmax in *. simpl (_ >=? _) in *. cbv iota in E3.
  apply exec_Retry in E3. destruct E3 as (_ & _ & ->).
  pose proof (incorrect_cycle p _ _ _ _ _ _ _ _ _ E4 E5 H2) as (Hc4 & _ & ch2 & ->).
  rewrite Hmax in *. simpl (_ >=? _) in *. cbv iota in E6.
  apply exec_Retry in E6. destruct E6 as (_ & _ & ->).
  pose proof (incorrect_cycle p _ _ _ _ _ _ _ _ _ E7 E8 H3) as (Hc7 & _ & ch3 & ->).
  rewrite Hmax in *. simpl in Hc4, Hc7 |- *.
  unfold CaptchaValidator.call_onComplete. rewrite Hcb.
  unfold Session.phase, Session.render, ValidationResult.render,
    CaptchaValidator.canRetry.
  simpl. rewrite Hmax, Hc1, Hc4, Hc7. simpl. auto.
Qed.

Lemma blocking_boundary_witness :
  exists c1 c2 c3 c4 c5 c6 c7 c8,
    Session.run Sample.props Sample.three_failures Session.start
      = Some [c1; c2; c3; c4; c5; c6; c7; c8]
    /\ map (fun c => Session.phase Sample.props (fst c)) [c2; c5; c8]
       = [Some Session.retry_available; Some Session.retry_available;
          Some Session.blocked]
    /\ snd c8 = [(false, 3)].
Proof.
  do 8 eexists.
  assert (Hrun : Session.run Sample.props Sample.three_failures Session.start
                 = Some [_; _; _; _; _; _; _; _]) by (cbv; reflexivity).
  split; [exact Hrun |].
  destruct (blocking_boundary Sample.props _ _ _ _ _ _ _ _ _ _ _ _ _ _ _
              _ _ _ _ _ _ _ _ eq_refl eq_refl Hrun eq_refl eq_refl eq_refl)
    as (Hphases & _ & Hcalls).
  split; [exact Hphases | exact Hcalls].
Defined.

(** C4. Along every event sequence of a session with a callback, the
    callback has been called exactly once in a configuration whose phase is
    success or blocked, with the outcome and the attempt count, and not at
    all in any other; a configuration in one of these two phases admits no
    further event.  In particular, with [maxAttempts = 3], a capture followed
    by a correct submission ends in phase success with the single call
    [(true, 1)], and no event can follow. *)
Theorem onComplete_exactly_once (p : CaptchaValidator.Props)
    (evs : list Session.Event) (cs : list Session.Config) :
  CaptchaValidator.onComplete p = true ->
  Session.run p evs Session.start = Some cs ->
  Forall (fun c =>
            snd c = (if Session.terminal (Session.phase p (fst c))
                     then [(CaptchaValidator.validationSuccess (fst c),
                            CaptchaValidator.attemptCount (fst c))]
                     else [])
            /\ (Session.terminal (Session.phase p (fst c)) = true ->
                forall ev, Session.exec p ev c = None)) cs
  /\ (forall data rnd k fuel sel c1 c2,
        CaptchaValidator.maxAttempts p = 3 ->
        evs = [Session.Capture data rnd k fuel; Session.Submit sel] ->
        cs = [c1; c2] ->
        Session.scores (fst c1) sel = true ->
        Session.phase p (fst c2) = Some Session.success
        /\ snd c2 = [(true, 1)]
        /\ forall ev, Session.exec p ev c2 = None).
Proof.
  intros Hcb Hrun.
  assert (Hall : Forall (fun c =>
            snd c = (if Session.terminal (Session.phase p (fst c))
                     then [(CaptchaValidator.validationSuccess (fst c),
                            CaptchaValidator.attemptCount (fst c))]
                     else [])
            /\ (Session.terminal (Session.phase p (fst c)) = true ->
                forall ev, Session.exec p ev c = None)) cs).
  { pose proof (run_reachable p evs _ _ (Session.reachable_start p) Hrun) as Hre.
    rewrite Forall_forall in *. intros [st calls] Hin.
    specialize (Hre _ Hin). apply consistent_reachable in Hre.
    apply consistent_calls in Hre. unfold CaptchaValidator.call_onComplete in Hre.
    rewrite Hcb in Hre. simpl. split; [exact Hre |].
    intros Ht ev. now apply terminal_final. }
  split; [exact Hall |].
  intros data rnd k fuel sel c1 c2 _ -> -> Hok.
  apply run_cons in Hrun. destruct Hrun as (x1 & t1 & E1 & Hrun & Q1).
  apply run_cons in Hrun. destruct Hrun as (x2 & t2 & E2 & _ & ->).
  injection Q1 as -> -> _.
  apply exec_Capture in E1. destruct E1 as (_ & ch & k' & _ & ->).
  apply exec_Submit in E2. destruct E2 as (_ & _ & E2).
  unfold Session.scores in Hok. simpl in Hok.
  unfold CaptchaValidator.handleValidationComplete in E2. simpl in E2.
  rewrite Hok in E2. unfold CaptchaValidator.call_onComplete in E2.
  rewrite Hcb in E2. subst x2.
  split; [reflexivity |]. split; [reflexivity |].
  intros ev. now apply terminal_final.
Qed.

Lemma onComplete_exactly_once_witness :
  exists c1 c2,
    Session.run Sample.props [Sample.capture; Session.Submit [2; 10]] Session.start
      = Some [c1; c2]
    /\ Session.phase Sample.props (fst c2) = Some Session.success
    /\ snd c2 = [(true, 1)].
Proof.
  do 2 eexists.
  assert (Hrun : Session.run Sample.props [Sample.capture; Session.Submit [2; 10]]
                   Session.start = Some [_; _]) by (cbv; reflexivity).
  split; [exact Hrun |].
  destruct (onComplete_exactly_once Sample.props _ _ eq_refl Hrun) as (_ & Hone).
  destruct (Hone _ _ _ _ _ _ _ eq_refl eq_refl eq_refl eq_refl) as (Hph & Hcalls & _).
  split; [exact Hph | exact Hcalls].
Defined.

(** C5. A submission against an active challenge raises [attemptCount] by
    exactly one; no event ever lowers it; a retry leaves it as it is (and
    with it the values derived from it and [maxAttempts]) while it clears the
    captured data and the challenge and returns to the camera step. *)
Theorem attemptCount_monotone (p : CaptchaValidator.Props)
    (st : CaptchaValidator.State) (calls : CaptchaValidator.Calls) :
  (forall sel ch,
      CaptchaValidator.challenge st = Some ch ->
      CaptchaValidator.attemptCount
        (fst (CaptchaValidator.handleValidationComplete p sel st calls))
      = CaptchaValidator.attemptCount st + 1)
  /\ (forall sel c',
        Session.exec p (Session.Submit sel) (st, calls) = Some c' ->
        CaptchaValidator.attemptCount (fst c') = CaptchaValidator.attemptCount st + 1)
  /\ (forall ev c',
        Session.exec p ev (st, calls) = Some c' ->
        CaptchaValidator.attemptCount st <= CaptchaValidator.attemptCount (fst c'))
  /\ CaptchaValidator.attemptCount (CaptchaValidator.handleRetry st)
     = CaptchaValidator.attemptCount st
  /\ CaptchaValidator.toleranceLevel p (CaptchaValidator.handleRetry st)
     = CaptchaValidator.toleranceLevel p st
  /\ CaptchaValidator.capturedData (CaptchaValidator.handleRetry st) = None
  /\ CaptchaValidator.challenge (CaptchaValidator.handleRetry st) = None
  /\ CaptchaValidator.currentStep (CaptchaValidator.handleRetry st)
     = CaptchaValidator.camera.
Proof.
  assert (Hsub : forall sel ch,
      CaptchaValidator.challenge st = Some ch ->
      CaptchaValidator.attemptCount
        (fst (CaptchaValidator.handleValidationComplete p sel st calls))
      = CaptchaValidator.attemptCount st + 1).
  { intros sel ch Hch. unfold CaptchaValidator.handleValidationComplete.
    rewrite Hch.
    destruct (CaptchaValidator.isCorrect _ _); [reflexivity |].
    destruct (_ >=? _); reflexivity. }
  split; [exact Hsub |]. split; [| split].
  - intros sel c' Hex. apply exec_Submit in Hex.
    destruct Hex as (_ & (ch & Hch) & ->). now apply (Hsub sel ch).
  - intros ev c' Hex. apply exec_inv in Hex.
    destruct Hex as [(_ & data & rnd & k & fuel & st' & k' & _ & Hcap & ->)
                    | [(_ & data & ch & sel & _ & Hch & _ & ->)
                      | (_ & _ & _ & _ & _ & ->)]].
    + apply handleCameraCapture_inv in Hcap. destruct Hcap as (ch & _ & ->).
      simpl. lia.
    + rewrite (Hsub sel ch Hch). lia.
    + simpl. lia.
  - repeat split; reflexivity.
Qed.

Lemma attemptCount_monotone_witness :
  exists c1 c2 c3,
    Session.run Sample.props [Sample.capture; Session.Submit [2]; Session.Retry]
      Session.start = Some [c1; c2; c3]
    /\ CaptchaValidator.attemptCount (fst c1) = 0
    /\ CaptchaValidator.attemptCount (fst c2) = 1
    /\ CaptchaValidator.attemptCount (fst c3) = 1.
Proof.
  do 3 eexists.
  assert (Hrun : Session.run Sample.props
                   [Sample.capture; Session.Submit [2]; Session.Retry]
                   Session.start = Some [_; _; _]) by (cbv; reflexivity).
  split; [exact Hrun |]. split; [reflexivity |]. split; [| reflexivity].
  match goal with
  | |- CaptchaValidator.attemptCount (fst (?st2, ?calls2)) = 1 =>
      match type of Hrun with
      | _ = Some [(?st1, ?calls1); _; _] =>
          destruct (attemptCount_monotone Sample.props st1 calls1)
            as (_ & Hstep & _);
          exact (Hstep [2] (st2, calls2) eq_refl)
      end
  end.
Defined.

(** C7. Without an active challenge the submission handler returns at once:
    the state and the calls are exactly what they were.  The retry handler
    keeps [attemptCount] in every state, and from a terminal phase the retry
    button is absent, so the handler is not even reached. *)
Theorem contract_violations_keep_attemptCount (p : CaptchaValidator.Props)
    (sel : list Z) (st : CaptchaValidator.State) (calls : CaptchaValidator.Calls) :
  (CaptchaValidator.challenge st = None ->
   CaptchaValidator.handleValidationComplete p sel st calls = (st, calls))
  /\ CaptchaValidator.attemptCount (CaptchaValidator.handleRetry st)
     = CaptchaValidator.attemptCount st
  /\ (Session.terminal (Session.phase p st) = true ->
      Session.exec p Session.Retry (st, calls) = None).
Proof.
  split; [| split].
  - intros Hch. unfold CaptchaValidator.handleValidationComplete. now rewrite Hch.
  - reflexivity.
  - intros Ht. now apply terminal_final.
Qed.

Lemma contract_violations_keep_attemptCount_witness :
  CaptchaValidator.handleValidationComplete Sample.props [2; 10]
    CaptchaValidator.initial [] = (CaptchaValidator.initial, []).
Proof.
  destruct (contract_violations_keep_attemptCount Sample.props [2; 10]
              CaptchaValidator.initial []) as (Hnoop & _).
  exact (Hnoop eq_refl).
Defined.

(** C8. The selection step is rendered with
    [toleranceLevel = max(1, maxAttempts - attemptCount)]: with
    [maxAttempts = 3] that is 1 after two attempts and 3 before the first.  The
    outcome of a submission is the same whatever tolerance level the selection
    step is given. *)
Theorem toleranceLevel_derivation (p : CaptchaValidator.Props)
    (st : CaptchaValidator.State) (sp : ShapeValidation.Props) :
  Session.render p st = Session.ShapeValidationView sp ->
  ShapeValidation.toleranceLevel sp
    = Z.max 1 (CaptchaValidator.maxAttempts p - CaptchaValidator.attemptCount st)
  /\ (CaptchaValidator.maxAttempts p = 3 ->
      CaptchaValidator.attemptCount st = 2 -> ShapeValidation.toleranceLevel sp = 1)
  /\ (CaptchaValidator.maxAttempts p = 3 ->
      CaptchaValidator.attemptCount st = 0 -> ShapeValidation.toleranceLevel sp = 3)
  /\ (forall (t : Z) (sel : list Z) (calls : CaptchaValidator.Calls),
        Session.exec p (Session.Submit sel) (st, calls)
        = Some (ShapeValidation.handleValidate
                  {| ShapeValidation.capturedData := ShapeValidation.capturedData sp;
                     ShapeValidation.challenge := ShapeValidation.challenge sp;
                     ShapeValidation.toleranceLevel := t |}
                  (fun s => CaptchaValidator.handleValidationComplete p s st calls)
                  sel)
        /\ Session.scores st sel
           = CaptchaValidator.isCorrect
               (CaptchaValidator.correctSectors (ShapeValidation.challenge sp)) sel).
Proof.
  intros Hview.
  assert (Htol : ShapeValidation.toleranceLevel sp
                 = Z.max 1 (CaptchaValidator.maxAttempts p
                            - CaptchaValidator.attemptCount st)
                 /\ CaptchaValidator.challenge st = Some (ShapeValidation.challenge sp)).
  { unfold Session.render in Hview.
    destruct (CaptchaValidator.currentStep st); try discriminate.
    destruct (CaptchaValidator.capturedData st); try discriminate.
    destruct (CaptchaValidator.challenge st); try discriminate.
    injection Hview as <-. split; reflexivity. }
  destruct Htol as [Htol Hch].
  split; [exact Htol |]. repeat split.
  - intros Hmax Hn. rewrite Htol, Hmax, Hn. reflexivity.
  - intros Hmax Hn. rewrite Htol, Hmax, Hn. reflexivity.
  - unfold Session.exec. rewrite Hview. reflexivity.
  - unfold Session.scores. now rewrite Hch.
Qed.

Lemma toleranceLevel_derivation_witness :
  exists sp,
    Session.render Sample.props Sample.selecting = Session.ShapeValidationView sp
    /\ ShapeValidation.toleranceLevel sp = 3.
Proof.
  eexists. split; [reflexivity |].
  exact (proj1 (proj2 (proj2
           (toleranceLevel_derivation Sample.props Sample.selecting _ eq_refl)))
           eq_refl eq_refl).
Defined.

(** C9. In every configuration reachable from the start of a session
    [validationSuccess] and [isBlocked] are not both true, so the success and
    the blocked phase exclude each other; and from a configuration in either
    phase no other configuration is reached later: the phase stays what it
    is. *)
Theorem success_blocked_exclusive (p : CaptchaValidator.Props)
    (c : Session.Config) :
  Session.reachable p c ->
  CaptchaValidator.validationSuccess (fst c) && CaptchaValidator.isBlocked (fst c)
  = false
  /\ ~ (Session.phase p (fst c) = Some Session.success
        /\ Session.phase p (fst c) = Some Session.blocked)
  /\ (forall c',
        Session.terminal (Session.phase p (fst c)) = true ->
        Session.later p c c' -> c' = c).
Proof.
  intros Hre. split; [| split].
  - apply consistent_reachable in Hre. destruct c as [st calls].
    unfold Session.consistent in Hre. simpl.
    destruct (CaptchaValidator.currentStep st).
    + destruct Hre as (-> & _). reflexivity.
    + destruct Hre as (-> & _). reflexivity.
    + destruct Hre as [(_ & -> & _) | [(-> & _) | (-> & _)]];
        [apply andb_false_r | reflexivity | reflexivity].
  - intros [H1 H2]. congruence.
  - intros c' Ht Hlater. induction Hlater as [| c1 c2 _ IH [ev Hex]].
    + reflexivity.
    + subst c1. destruct c as [st calls].
      rewrite (terminal_final p ev st calls Ht) in Hex. discriminate.
Qed.

Lemma success_blocked_exclusive_witness :
  exists c,
    Session.reachable Sample.props c
    /\ Session.phase Sample.props (fst c) = Some Session.blocked
    /\ CaptchaValidator.validationSuccess (fst c) && CaptchaValidator.isBlocked (fst c)
       = false.
Proof.
  assert (Hrun : Session.run Sample.props Sample.three_failures Session.start
                 = Some [_; _; _; _; _; _; _; _]) by (cbv; reflexivity).
  pose proof (run_reachable Sample.props _ _ _
                (Session.reachable_start Sample.props) Hrun) as Hall.
  match type of Hrun with
  | _ = Some [_; _; _; _; _; _; _; ?c8] =>
      assert (Hre : Session.reachable Sample.props c8)
        by (rewrite Forall_forall in Hall; apply Hall; simpl; auto 10);
      exists c8
  end.
  split; [exact Hre |]. split; [reflexivity |].
  exact (proj1 (success_blocked_exclusive Sample.props _ Hre)).
Defined.

(** ** Binary64 rounding *)

Section Binary64.
Import JS.
Local Open Scope Q_scope.

Lemma two_pos : 0 < 2.
Proof. reflexivity. Qed.

Lemma two_not_0 : ~ 2 == 0.
Proof. discriminate. Qed.

Lemma pow2_pos (e : Z) : 0 < 2 ^ e.
Proof. apply Qpower_0_lt. reflexivity. Qed.

Lemma pow2_succ (e : Z) : 2 ^ (e + 1) == 2 * 2 ^ e.
Proof. rewrite Qpower_plus by discriminate. rewrite Qpower_1_r. ring. Qed.

Lemma pow2_Z (n : Z) : (0 <= n)%Z -> inject_Z (2 ^ n) == 2 ^ n.
Proof. intros Hn. apply (Zpower_Qpower 2 n Hn). Qed.

Lemma pow2_le (n m : Z) : (n <= m)%Z -> 2 ^ n <= 2 ^ m.
Proof. intros H. apply Qpower_le_compat_l; [exact H | discriminate]. Qed.

Lemma pow2_lt_inv (n m : Z) : 2 ^ n < 2 ^ m -> (n < m)%Z.
Proof. intros H. apply (Qpower_lt_compat_l_inv 2); [exact H | reflexivity]. Qed.

(** The exponent brackets its argument. *)
Lemma exponent_spec (x : Q) :
  0 < x -> 2 ^ exponent x <= x /\ x < 2 ^ (exponent x + 1).
Proof.
  intros Hx. destruct x as [a b]. unfold exponent. cbn [Qnum Qden].
  assert (Ha : (0 < a)%Z) by (unfold Qlt in Hx; simpl in Hx; lia).
  pose proof (Z.log2_spec a Ha) as [Ha1 Ha2].
  pose proof (Z.log2_spec (Z.pos b) (Pos2Z.is_pos b)) as [Hb1 Hb2].
  pose proof (Z.log2_nonneg a) as Hla.
  pose proof (Z.log2_nonneg (Z.pos b)) as Hlb.
  set (la := Z.log2 a) in *. set (lb := Z.log2 (Z.pos b)) in *.
  assert (Hx' : a # b == inject_Z a / inject_Z (Z.pos b)) by apply Qmake_Qdiv.
  assert (Hbpos : 0 < inject_Z (Z.pos b)) by reflexivity.
  assert (HA1 : 2 ^ la <= inject_Z a).
  { rewrite <- pow2_Z by lia. rewrite <- Zle_Qle. exact Ha1. }
  assert (HA2 : inject_Z a < 2 ^ (la + 1)).
  { rewrite <- pow2_Z by lia. rewrite <- Zlt_Qlt. lia. }
  assert (HB1 : 2 ^ lb <= inject_Z (Z.pos b)).
  { rewrite <- pow2_Z by lia. rewrite <- Zle_Qle. exact Hb1. }
  assert (HB2 : inject_Z (Z.pos b) < 2 ^ (lb + 1)).
  { rewrite <- pow2_Z by lia. rewrite <- Zlt_Qlt. lia. }
  assert (Hlow : 2 ^ (la - lb - 1) <= a # b).
  { rewrite Hx'. apply Qle_shift_div_l; [exact Hbpos |].
    apply Qle_trans with (2 ^ (la - lb - 1) * 2 ^ (lb + 1)).
    - apply Qmult_le_l; [apply pow2_pos | now apply Qlt_le_weak].
    - rewrite <- Qpower_plus by discriminate.
      replace (la - lb - 1 + (lb + 1))%Z with la by lia. exact HA1. }
  assert (Hhigh : a # b < 2 ^ (la - lb + 1)).
  { rewrite Hx'. apply Qlt_shift_div_r; [exact Hbpos |].
    apply Qlt_le_trans with (2 ^ (la + 1)); [exact HA2 |].
    apply Qle_trans with (2 ^ (la - lb + 1) * 2 ^ lb).
    - rewrite <- Qpower_plus by discriminate.
      replace (la - lb + 1 + lb)%Z with (la + 1)%Z by lia. apply Qle_refl.
    - apply Qmult_le_l; [apply pow2_pos | exact HB1]. }
  destruct (Qle_bool (2 ^ (la - lb)) (a # b)) eqn:E.
  - apply Qle_bool_iff in E. split; [exact E | exact Hhigh].
  - split; [exact Hlow |].
    replace (la - lb - 1 + 1)%Z with (la - lb)%Z by lia.
    apply Qnot_le_lt. intros H. apply Qle_bool_iff in H. congruence.
Qed.

Lemma exponent_unique (x : Q) (e : Z) :
  2 ^ e <= x -> x < 2 ^ (e + 1) -> exponent x = e.
Proof.
  intros H1 H2.
  assert (Hx : 0 < x) by (eapply Qlt_le_trans; [apply pow2_pos | exact H1]).
  destruct (exponent_spec x Hx) as [E1 E2].
  assert (exponent x < e + 1)%Z
    by (apply pow2_lt_inv; eapply Qle_lt_trans; eassumption).
  assert (e < exponent x + 1)%Z
    by (apply pow2_lt_inv; eapply Qle_lt_trans; eassumption).
  lia.
Qed.

Lemma ulp_pos (x : Q) : 0 < ulp x.
Proof. apply pow2_pos. Qed.

Lemma ulp_normal (x : Q) (e : Z) :
  2 ^ e <= x -> x < 2 ^ (e + 1) -> (-1022 <= e)%Z -> ulp x = 2 ^ (e - 52).
Proof.
  intros H1 H2 He. unfold ulp. rewrite (exponent_unique x e H1 H2).
  now rewrite Z.max_l by lia.
Qed.


Lemma Qfloor_bounds (q : Q) : inject_Z (Qfloor q) <= q /\ q < inject_Z (Qfloor q) + 1.
Proof.
  split; [apply Qfloor_le |].
  pose proof (Qlt_floor q) as H. rewrite inject_Z_plus in H. exact H.
Qed.

Lemma inject_Z_pred (a : Z) : inject_Z (a - 1) == inject_Z a - 1.
Proof.
  unfold Z.sub. rewrite inject_Z_plus. change (inject_Z (- (1))) with (- (1))%Q.
  ring.
Qed.

Lemma inject_Z_lt_inv (a b : Z) : inject_Z a < inject_Z b -> (a < b)%Z.
Proof. now rewrite <- Zlt_Qlt. Qed.

Lemma inject_Z_le_inv (a b : Z) : inject_Z a <= inject_Z b -> (a <= b)%Z.
Proof. now rewrite <- Zle_Qle. Qed.

Lemma roundInt_bounds (q : Q) : (Qfloor q <= roundInt q <= Qfloor q + 1)%Z.
Proof.
  unfold roundInt. destruct (q - inject_Z (Qfloor q) ?= 1 # 2);
    [destruct (Z.even (Qfloor q)) | |]; lia.
Qed.

Lemma roundInt_lt_half (M : Z) (q : Q) :
  q < inject_Z M - (1 # 2) -> (roundInt q <= M - 1)%Z.
Proof.
  intros Hq. destruct (Qfloor_bounds q) as [Hf1 Hf2].
  unfold roundInt. destruct (q - inject_Z (Qfloor q) ?= 1 # 2) eqn:E.
  - apply Qeq_alt in E.
    assert (Qfloor q < M - 1)%Z.
    { apply inject_Z_lt_inv. rewrite inject_Z_pred. change (inject_Z 1) with 1. lra. }
    destruct (Z.even (Qfloor q)); lia.
  - assert (Qfloor q < M)%Z by (apply inject_Z_lt_inv; lra). lia.
  - apply Qgt_alt in E.
    assert (Qfloor q < M - 1)%Z.
    { apply inject_Z_lt_inv. rewrite inject_Z_pred. change (inject_Z 1) with 1. lra. }
    lia.
Qed.

Lemma roundInt_ge_half (M : Z) (q : Q) :
  inject_Z M - (1 # 2) <= q -> Z.even M = true -> (M <= roundInt q)%Z.
Proof.
  intros Hq Heven. destruct (Qfloor_bounds q) as [Hf1 Hf2].
  unfold roundInt. destruct (q - inject_Z (Qfloor q) ?= 1 # 2) eqn:E.
  - apply Qeq_alt in E.
    assert (Hge : (M - 1 <= Qfloor q)%Z).
    { apply inject_Z_le_inv. rewrite inject_Z_pred. change (inject_Z 1) with 1. lra. }
    destruct (Z.even (Qfloor q)) eqn:Ef; [| lia].
    destruct (Z.eq_dec (Qfloor q) (M - 1)) as [Heq | Hne]; [| lia].
    rewrite Heq in Ef. replace (M - 1)%Z with (Z.pred M) in Ef by lia.
    rewrite Z.even_pred in Ef. rewrite <- Z.negb_even in Ef.
    rewrite Heven in Ef. discriminate.
  - apply Qlt_alt in E.
    assert (M - 1 < Qfloor q)%Z.
    { apply inject_Z_lt_inv. rewrite inject_Z_pred. change (inject_Z 1) with 1. lra. }
    lia.
  - assert (M - 1 < Qfloor q + 1)%Z.
    { apply inject_Z_lt_inv. rewrite inject_Z_pred, inject_Z_plus.
      change (inject_Z 1) with 1. lra. }
    lia.
Qed.

Lemma nearest_pos (x : Q) :
  0 < x -> nearest x = inject_Z (roundInt (x / ulp x)) * ulp x.
Proof.
  intros Hx. unfold nearest. destruct (Qle_bool x 0) eqn:E; [| reflexivity].
  apply Qle_bool_iff in E. lra.
Qed.

Lemma toDouble_pos (x : Q) :
  0 < x -> toDouble x = inject_Z (Qfloor (x / ulp x)) * ulp x.
Proof.
  intros Hx. unfold toDouble. destruct (Qle_bool x 0) eqn:E; [| reflexivity].
  apply Qle_bool_iff in E. lra.
Qed.

(** Comparisons with a multiple of the unit, in units. *)
Lemma scaled_le (c x u : Q) : 0 < u -> (c * u <= x <-> c <= x / u).
Proof.
  intros Hu. split; intros H.
  - now apply Qle_shift_div_l.
  - apply (Qmult_le_r _ _ u Hu) in H.
    assert (Heq : x / u * u == x) by (field; lra). now rewrite Heq in H.
Qed.

Lemma scaled_lt (c x u : Q) : 0 < u -> (x < c * u <-> x / u < c).
Proof.
  intros Hu. split; intros H.
  - now apply Qlt_shift_div_r.
  - apply (Qmult_lt_r _ _ u Hu) in H.
    assert (Heq : x / u * u == x) by (field; lra). now rewrite Heq in H.
Qed.

Lemma nearest_le_ceil (M : Z) (x : Q) :
  0 < x -> x < inject_Z M * ulp x -> nearest x <= inject_Z M * ulp x.
Proof.
  intros Hx H. rewrite (nearest_pos x Hx).
  apply scaled_lt in H; [| apply ulp_pos].
  apply Qmult_le_r; [apply ulp_pos |]. rewrite <- Zle_Qle.
  pose proof (roundInt_bounds (x / ulp x)) as [_ Hr].
  destruct (Qfloor_bounds (x / ulp x)) as [Hf _].
  assert (Qfloor (x / ulp x) < M)%Z by (apply inject_Z_lt_inv; lra). lia.
Qed.

Lemma nearest_ge_floor (M : Z) (x : Q) :
  0 < x -> inject_Z M * ulp x <= x -> inject_Z M * ulp x <= nearest x.
Proof.
  intros Hx H. rewrite (nearest_pos x Hx).
  apply scaled_le in H; [| apply ulp_pos].
  apply Qmult_le_r; [apply ulp_pos |]. rewrite <- Zle_Qle.
  pose proof (roundInt_bounds (x / ulp x)) as [Hr _].
  destruct (Qfloor_bounds (x / ulp x)) as [_ Hf].
  assert (M < Qfloor (x / ulp x) + 1)%Z.
  { apply inject_Z_lt_inv. rewrite inject_Z_plus. change (inject_Z 1) with 1. lra. }
  lia.
Qed.

Lemma nearest_lt_half (M : Z) (x : Q) :
  0 < x -> x < (inject_Z M - (1 # 2)) * ulp x ->
  nearest x <= inject_Z (M - 1) * ulp x.
Proof.
  intros Hx H. rewrite (nearest_pos x Hx).
  apply scaled_lt in H; [| apply ulp_pos].
  apply Qmult_le_r; [apply ulp_pos |]. rewrite <- Zle_Qle.
  now apply roundInt_lt_half.
Qed.

Lemma nearest_ge_half (M : Z) (x : Q) :
  0 < x -> (inject_Z M - (1 # 2)) * ulp x <= x -> Z.even M = true ->
  inject_Z M * ulp x <= nearest x.
Proof.
  intros Hx H Heven. rewrite (nearest_pos x Hx).
  apply scaled_le in H; [| apply ulp_pos].
  apply Qmult_le_r; [apply ulp_pos |]. rewrite <- Zle_Qle.
  now apply roundInt_ge_half.
Qed.

Lemma nearest_nonneg (x : Q) : 0 <= nearest x.
Proof.
  unfold nearest. destruct (Qle_bool x 0) eqn:E; [apply Qle_refl |].
  assert (Hx : 0 < x).
  { apply Qnot_le_lt. intros H. apply Qle_bool_iff in H. congruence. }
  apply Qmult_le_0_compat; [| apply Qlt_le_weak, ulp_pos].
  change 0 with (inject_Z 0). rewrite <- Zle_Qle.
  pose proof (roundInt_bounds (x / ulp x)) as [Hr _].
  assert (0 <= Qfloor (x / ulp x))%Z; [| lia].
  change 0%Z with (Qfloor (inject_Z 0)). apply Qfloor_resp_le.
  apply Qle_shift_div_l; [apply ulp_pos |]. change (inject_Z 0) with 0. lra.
Qed.

Lemma toDouble_bounds (x : Q) : 0 <= x -> 0 <= toDouble x /\ toDouble x <= x.
Proof.
  intros Hx. unfold toDouble. destruct (Qle_bool x 0) eqn:E.
  - split; [apply Qle_refl | exact Hx].
  - assert (Hx' : 0 < x).
    { apply Qnot_le_lt. intros H. apply Qle_bool_iff in H. congruence. }
    destruct (Qfloor_bounds (x / ulp x)) as [Hf _]. split.
    + apply Qmult_le_0_compat; [| apply Qlt_le_weak, ulp_pos].
      change 0 with (inject_Z 0). rewrite <- Zle_Qle.
      change 0%Z with (Qfloor (inject_Z 0)). apply Qfloor_resp_le.
      apply Qle_shift_div_l; [apply ulp_pos |]. change (inject_Z 0) with 0. lra.
    + apply scaled_le; [apply ulp_pos | exact Hf].
Qed.

Lemma toDouble_ge (M : Z) (x : Q) :
  0 < x -> inject_Z M * ulp x <= x -> inject_Z M * ulp x <= toDouble x.
Proof.
  intros Hx H. rewrite (toDouble_pos x Hx).
  apply scaled_le in H; [| apply ulp_pos].
  apply Qmult_le_r; [apply ulp_pos |]. rewrite <- Zle_Qle.
  destruct (Qfloor_bounds (x / ulp x)) as [_ Hf].
  assert (M < Qfloor (x / ulp x) + 1)%Z.
  { apply inject_Z_lt_inv. rewrite inject_Z_plus. change (inject_Z 1) with 1. lra. }
  lia.
Qed.

Lemma toDouble_lt (M : Z) (x : Q) :
  0 < x -> x < inject_Z M * ulp x -> toDouble x <= inject_Z (M - 1) * ulp x.
Proof.
  intros Hx H. rewrite (toDouble_pos x Hx).
  apply scaled_lt in H; [| apply ulp_pos].
  apply Qmult_le_r; [apply ulp_pos |]. rewrite <- Zle_Qle.
  destruct (Qfloor_bounds (x / ulp x)) as [Hf _].
  assert (Qfloor (x / ulp x) < M)%Z by (apply inject_Z_lt_inv; lra). lia.
Qed.


(** Below a power of two the nearest double is at most that power. *)
Lemma nearest_below_pow2 (x : Q) (k : Z) :
  0 < x -> x < 2 ^ k -> (-1021 <= k)%Z -> nearest x <= 2 ^ k.
Proof.
  intros Hx Hk Hmin. destruct (exponent_spec x Hx) as [E1 _].
  assert (He : (exponent x < k)%Z)
    by (apply pow2_lt_inv; eapply Qle_lt_trans; eassumption).
  set (e' := Z.max (exponent x) (-1022)).
  assert (He' : (e' <= k - 1)%Z) by (unfold e'; lia).
  assert (Hu : ulp x = 2 ^ (e' - 52)) by reflexivity.
  assert (Heq : inject_Z (2 ^ (k - e' + 52)) * ulp x == 2 ^ k).
  { rewrite Hu, pow2_Z by lia. rewrite <- Qpower_plus by discriminate.
    replace (k - e' + 52 + (e' - 52))%Z with k by lia. reflexivity. }
  rewrite <- Heq. apply nearest_le_ceil; [exact Hx | now rewrite Heq].
Qed.

Lemma Qfloor_eq (q : Q) (n : Z) :
  inject_Z n <= q -> q < inject_Z n + 1 -> Qfloor q = n.
Proof.
  intros H1 H2. destruct (Qfloor_bounds q) as [F1 F2].
  assert (n < Qfloor q + 1)%Z.
  { apply inject_Z_lt_inv. rewrite inject_Z_plus. change (inject_Z 1) with 1. lra. }
  assert (Qfloor q < n + 1)%Z.
  { apply inject_Z_lt_inv. rewrite inject_Z_plus. change (inject_Z 1) with 1. lra. }
  lia.
Qed.

Ltac constants :=
  change (2 ^ (-2 - 52)) with (1 # 18014398509481984) in *;
  change (2 ^ (-1 - 52)) with (1 # 9007199254740992) in *;
  change (2 ^ (0 - 52)) with (1 # 4503599627370496) in *;
  change (2 ^ (1 - 52)) with (1 # 2251799813685248) in *;
  change (2 ^ (-2)) with (1 # 4) in *;
  change (2 ^ (-2 + 1)) with (1 # 2) in *;
  change (2 ^ (-1)) with (1 # 2) in *;
  change (2 ^ (-1 + 1)) with 1 in *;
  change (2 ^ 0) with 1 in *;
  change (2 ^ (0 + 1)) with 2 in *;
  change (2 ^ 1) with 2 in *;
  change (2 ^ (1 + 1)) with 4 in *.

(** The double nearest to a real in [0, 3), against the integers 1, 2, 3. *)
Lemma nearest_lt_1 (x : Q) :
  0 <= x -> x < 18014398509481983 # 18014398509481984 -> nearest x < 1.
Proof.
  intros H0 H. destruct (Qlt_le_dec 0 x) as [Hx | Hx].
  - destruct (Qlt_le_dec x (1 # 2)) as [Hs | Hs].
    + pose proof (nearest_below_pow2 x (-1) Hx Hs ltac:(lia)) as Hn.
      constants. lra.
    + assert (Hu : ulp x = 2 ^ (-1 - 52))
        by (apply ulp_normal; [constants; lra | constants; lra | lia]).
      pose proof (nearest_lt_half 9007199254740992 x Hx) as Hn.
      rewrite Hu in Hn. constants.
      change (inject_Z 9007199254740992) with (9007199254740992 # 1) in Hn.
      change (inject_Z (9007199254740992 - 1)) with (9007199254740991 # 1) in Hn.
      specialize (Hn ltac:(lra)). lra.
  - unfold nearest. assert (E : Qle_bool x 0 = true) by (now apply Qle_bool_iff).
    rewrite E. reflexivity.
Qed.

Lemma nearest_ge_exponent (x : Q) :
  0 < x -> (-1022 <= exponent x)%Z -> 2 ^ exponent x <= nearest x.
Proof.
  intros Hx He. destruct (exponent_spec x Hx) as [E1 _].
  assert (Heq : inject_Z (2 ^ 52) * ulp x == 2 ^ exponent x).
  { unfold ulp. rewrite Z.max_l by lia. rewrite pow2_Z by lia.
    rewrite <- Qpower_plus by discriminate.
    replace (52 + (exponent x - 52))%Z with (exponent x) by lia. reflexivity. }
  rewrite <- Heq. apply nearest_ge_floor; [exact Hx | now rewrite Heq].
Qed.

Lemma nearest_ge_pow2 (x : Q) (k : Z) :
  2 ^ k <= x -> (-1022 <= k)%Z -> 2 ^ k <= nearest x.
Proof.
  intros Hk Hmin.
  assert (Hx : 0 < x) by (eapply Qlt_le_trans; [apply pow2_pos | exact Hk]).
  destruct (exponent_spec x Hx) as [_ E2].
  assert (He : (k < exponent x + 1)%Z)
    by (apply pow2_lt_inv; eapply Qle_lt_trans; eassumption).
  apply Qle_trans with (2 ^ exponent x); [apply pow2_le; lia |].
  apply nearest_ge_exponent; [exact Hx | lia].
Qed.

Lemma nearest_ge_1 (x : Q) :
  18014398509481983 # 18014398509481984 <= x -> 1 <= nearest x.
Proof.
  intros H. assert (Hx : 0 < x) by lra.
  destruct (Qlt_le_dec x 1) as [Hs | Hs].
  - assert (Hu : ulp x = 2 ^ (-1 - 52))
      by (apply ulp_normal; [constants; lra | constants; lra | lia]).
    pose proof (nearest_ge_half 9007199254740992 x Hx) as Hn.
    rewrite Hu in Hn. constants.
    change (inject_Z 9007199254740992) with (9007199254740992 # 1) in Hn.
    specialize (Hn ltac:(lra) eq_refl). lra.
  - apply (nearest_ge_pow2 x 0); [exact Hs | lia].
Qed.

Lemma nearest_lt_2 (x : Q) :
  0 <= x -> x < 18014398509481983 # 9007199254740992 -> nearest x < 2.
Proof.
  intros H0 H. destruct (Qlt_le_dec 0 x) as [Hx | Hx].
  - destruct (Qlt_le_dec x 1) as [Hs | Hs].
    + pose proof (nearest_below_pow2 x 0 Hx Hs ltac:(lia)) as Hn.
      constants. lra.
    + assert (Hu : ulp x = 2 ^ (0 - 52))
        by (apply ulp_normal; [constants; lra | constants; lra | lia]).
      pose proof (nearest_lt_half 9007199254740992 x Hx) as Hn.
      rewrite Hu in Hn. constants.
      change (inject_Z 9007199254740992) with (9007199254740992 # 1) in Hn.
      change (inject_Z (9007199254740992 - 1)) with (9007199254740991 # 1) in Hn.
      specialize (Hn ltac:(lra)). lra.
  - unfold nearest. assert (E : Qle_bool x 0 = true) by (now apply Qle_bool_iff).
    rewrite E. reflexivity.
Qed.

Lemma nearest_ge_2 (x : Q) :
  18014398509481983 # 9007199254740992 <= x -> 2 <= nearest x.
Proof.
  intros H. assert (Hx : 0 < x) by lra.
  destruct (Qlt_le_dec x 2) as [Hs | Hs].
  - assert (Hu : ulp x = 2 ^ (0 - 52))
      by (apply ulp_normal; [constants; lra | constants; lra | lia]).
    pose proof (nearest_ge_half 9007199254740992 x Hx) as Hn.
    rewrite Hu in Hn. constants.
    change (inject_Z 9007199254740992) with (9007199254740992 # 1) in Hn.
    specialize (Hn ltac:(lra) eq_refl). lra.
  - apply (nearest_ge_pow2 x 1); [exact Hs | lia].
Qed.

Lemma nearest_lt_3 (x : Q) :
  0 <= x -> x <= 27021597764222973 # 9007199254740992 -> nearest x < 3.
Proof.
  intros H0 H. destruct (Qlt_le_dec 0 x) as [Hx | Hx].
  - destruct (Qlt_le_dec x 2) as [Hs | Hs].
    + pose proof (nearest_below_pow2 x 1 Hx Hs ltac:(lia)) as Hn.
      constants. lra.
    + assert (Hu : ulp x = 2 ^ (1 - 52))
        by (apply ulp_normal; [constants; lra | constants; lra | lia]).
      pose proof (nearest_lt_half 6755399441055744 x Hx) as Hn.
      rewrite Hu in Hn. constants.
      change (inject_Z 6755399441055744) with (6755399441055744 # 1) in Hn.
      change (inject_Z (6755399441055744 - 1)) with (6755399441055743 # 1) in Hn.
      specialize (Hn ltac:(lra)). lra.
  - unfold nearest. assert (E : Qle_bool x 0 = true) by (now apply Qle_bool_iff).
    rewrite E. reflexivity.
Qed.

Lemma roundInt_Z (m : Z) (q : Q) : q == inject_Z m -> roundInt q = m.
Proof.
  intros H. unfold roundInt.
  assert (Hf : Qfloor q = m) by (apply Qfloor_eq; rewrite H; lra).
  rewrite Hf.
  assert (Hlt : q - inject_Z m < 1 # 2) by (rewrite H; lra).
  assert (Hc : (q - inject_Z m ?= 1 # 2) = Lt) by (apply Qlt_alt; exact Hlt).
  rewrite Hc. reflexivity.
Qed.

Lemma nonpos_false (x : Q) : 0 < x -> Qle_bool x 0 = false.
Proof.
  intros Hx. destruct (Qle_bool x 0) eqn:E; [| reflexivity].
  apply Qle_bool_iff in E. lra.
Qed.

Lemma nonpos_true (x : Q) : x <= 0 -> Qle_bool x 0 = true.
Proof. intros Hx. now apply Qle_bool_iff. Qed.

(** A multiple of its own [ulp] is a double: both roundings leave it. *)
Lemma nearest_fixed (M : Z) (x : Q) :
  0 <= x -> x == inject_Z M * ulp x -> nearest x == x.
Proof.
  intros H0 H. pose proof (ulp_pos x) as Hu.
  destruct (Qlt_le_dec 0 x) as [Hx | Hx].
  - rewrite (nearest_pos x Hx).
    assert (Hq : x / ulp x == inject_Z M).
    { rewrite H at 1. field. lra. }
    rewrite (roundInt_Z M _ Hq). symmetry. exact H.
  - unfold nearest. rewrite (nonpos_true x Hx). lra.
Qed.

Lemma toDouble_fixed (M : Z) (x : Q) :
  0 <= x -> x == inject_Z M * ulp x -> toDouble x == x.
Proof.
  intros H0 H. pose proof (ulp_pos x) as Hu.
  destruct (Qlt_le_dec 0 x) as [Hx | Hx].
  - rewrite (toDouble_pos x Hx).
    assert (Hq : x / ulp x == inject_Z M).
    { rewrite H at 1. field. lra. }
    assert (Hf : Qfloor (x / ulp x) = M) by (apply Qfloor_eq; rewrite Hq; lra).
    rewrite Hf. symmetry. exact H.
  - unfold toDouble. rewrite (nonpos_true x Hx). lra.
Qed.

Lemma pow2_plus (a b : Z) : 2 ^ (a + b) == 2 ^ a * 2 ^ b.
Proof. apply Qpower_plus. discriminate. Qed.

(** Doubling a double [k] times is exact. *)
Lemma times_pow2_exact (r : Q) (k : Z) :
  0 <= r -> (0 <= k)%Z ->
  nearest (toDouble r * inject_Z (2 ^ k)) == toDouble r * inject_Z (2 ^ k).
Proof.
  intros H0 Hk. destruct (toDouble_bounds r H0) as [Hd0 Hdr].
  pose proof (pow2_pos k) as Hp. pose proof (pow2_Z k Hk) as Hpk.
  set (p := inject_Z (2 ^ k)) in *.
  set (x := toDouble r * p).
  assert (Hx0 : 0 <= x) by (unfold x; apply Qmult_le_0_compat; lra).
  destruct (Qlt_le_dec 0 x) as [Hx | Hx].
  2:{ unfold nearest. rewrite (nonpos_true x Hx). lra. }
  assert (Hr : 0 < r).
  { destruct (Qlt_le_dec 0 r) as [Hr | Hr]; [exact Hr |].
    exfalso. assert (Hd : toDouble r == 0) by lra.
    unfold x in Hx. rewrite Hd in Hx. lra. }
  destruct (exponent_spec r Hr) as [_ R2].
  destruct (exponent_spec x Hx) as [X1 _].
  assert (He : (exponent x < exponent r + 1 + k)%Z).
  { apply pow2_lt_inv. eapply Qle_lt_trans; [exact X1 |].
    rewrite pow2_plus, <- Hpk. unfold x.
    apply Qle_lt_trans with (r * p).
    - apply Qmult_le_compat_r; lra.
    - apply Qmult_lt_compat_r; lra. }
  set (j := (k + Z.max (exponent r) (-1022) - Z.max (exponent x) (-1022))%Z).
  assert (Hj : (0 <= j)%Z) by (unfold j; lia).
  apply (nearest_fixed (Qfloor (r / ulp r) * 2 ^ j) x Hx0).
  assert (E : p * ulp r == 2 ^ j * ulp x).
  { rewrite Hpk. unfold ulp. rewrite <- !pow2_plus. unfold j.
    replace (k + Z.max (exponent r) (-1022) - Z.max (exponent x) (-1022)
             + (Z.max (exponent x) (-1022) - 52))%Z
      with (k + (Z.max (exponent r) (-1022) - 52))%Z by lia.
    reflexivity. }
  rewrite inject_Z_mult, (pow2_Z j Hj), <- Qmult_assoc, <- E.
  unfold x. rewrite (toDouble_pos r Hr). ring.
Qed.

(** [Math.floor(r * 2^k)] in doubles is the floor of the exact product. *)
Lemma Math_floor_times_pow2 (r : Q) (k : Z) :
  0 <= r -> r < 1 -> (0 <= k <= 52)%Z ->
  Math_floor (times r (2 ^ k)) = Math_floor (r * inject_Z (2 ^ k)).
Proof.
  intros H0 H1 Hk. unfold times, Math_floor.
  rewrite (Qfloor_comp _ _ (times_pow2_exact r k H0 (proj1 Hk))).
  destruct (toDouble_bounds r H0) as [Hd0 Hdr].
  pose proof (pow2_pos k) as Hp. pose proof (pow2_Z k (proj1 Hk)) as Hpk.
  set (p := inject_Z (2 ^ k)) in *.
  destruct (Qfloor_bounds (r * p)) as [F1 F2].
  set (K := Qfloor (r * p)) in *.
  assert (Hp' : 0 < p) by lra.
  apply Qfloor_eq.
  - destruct (Z_le_gt_dec K 0) as [HK | HK].
    + apply Qle_trans with 0.
      * change 0 with (inject_Z 0). rewrite <- Zle_Qle. exact HK.
      * apply Qmult_le_0_compat; lra.
    + assert (HKq : 0 < inject_Z K)
        by (change 0 with (inject_Z 0); rewrite <- Zlt_Qlt; lia).
      assert (Hr : 0 < r).
      { destruct (Qlt_le_dec 0 r) as [Hr | Hr]; [exact Hr |].
        exfalso. assert (Hz : r * p <= 0 * p)
          by (apply Qmult_le_compat_r; lra). lra. }
      destruct (exponent_spec r Hr) as [R1 _].
      assert (He : (exponent r < 0)%Z)
        by (apply pow2_lt_inv; change (2 ^ 0) with 1; lra).
      set (e := Z.max (exponent r) (-1022)).
      assert (Hm : (0 <= 52 - e - k)%Z) by (unfold e; lia).
      pose proof (toDouble_ge (K * 2 ^ (52 - e - k)) r Hr) as Hd.
      assert (Eq : inject_Z (K * 2 ^ (52 - e - k)) * ulp r
                   == inject_Z K * 2 ^ (- k)).
      { rewrite inject_Z_mult, (pow2_Z _ Hm). unfold ulp. fold e.
        rewrite <- Qmult_assoc, <- pow2_plus.
        replace (52 - e - k + (e - 52))%Z with (- k)%Z by lia. reflexivity. }
      rewrite Eq in Hd.
      assert (Einv : 2 ^ (- k) * p == 1).
      { rewrite Hpk, <- pow2_plus. replace (- k + k)%Z with 0%Z by lia.
        reflexivity. }
      pose proof (pow2_pos (- k)) as Hpn.
      assert (Hle : inject_Z K * 2 ^ (- k) <= r).
      { apply Qle_trans with (r * p * 2 ^ (- k)).
        - apply Qmult_le_compat_r; lra.
        - rewrite <- Qmult_assoc, (Qmult_comm p), Einv. lra. }
      specialize (Hd Hle).
      apply Qle_trans with (inject_Z K * 2 ^ (- k) * p).
      * rewrite <- Qmult_assoc, Einv. lra.
      * apply Qmult_le_compat_r; lra.
  - apply Qle_lt_trans with (r * p); [| exact F2].
    apply Qmult_le_compat_r; lra.
Qed.

(** The double at or below a real of [0, 1), against the two thresholds. *)
Lemma toDouble_ge_third (r : Q) :
  third_below <= r -> r < 1 -> third_below <= toDouble r.
Proof.
  unfold third_below. intros H1 H2. assert (Hr : 0 < r) by lra.
  destruct (Qlt_le_dec r (1 # 2)) as [Hs | Hs].
  - assert (Hu : ulp r = 2 ^ (-2 - 52))
      by (apply ulp_normal; [constants; lra | constants; lra | lia]).
    pose proof (toDouble_ge 6004799503160661 r Hr) as Hd.
    rewrite Hu in Hd. constants.
    change (inject_Z 6004799503160661) with (6004799503160661 # 1) in Hd.
    specialize (Hd ltac:(lra)). lra.
  - assert (Hu : ulp r = 2 ^ (-1 - 52))
      by (apply ulp_normal; [constants; lra | constants; lra | lia]).
    pose proof (toDouble_ge 4503599627370496 r Hr) as Hd.
    rewrite Hu in Hd. constants.
    change (inject_Z 4503599627370496) with (4503599627370496 # 1) in Hd.
    specialize (Hd ltac:(lra)). lra.
Qed.

Lemma toDouble_ge_two_thirds (r : Q) :
  two_thirds_below <= r -> r < 1 -> two_thirds_below <= toDouble r.
Proof.
  unfold two_thirds_below. intros H1 H2. assert (Hr : 0 < r) by lra.
  assert (Hu : ulp r = 2 ^ (-1 - 52))
    by (apply ulp_normal; [constants; lra | constants; lra | lia]).
  pose proof (toDouble_ge 6004799503160661 r Hr) as Hd.
  rewrite Hu in Hd. constants.
  change (inject_Z 6004799503160661) with (6004799503160661 # 1) in Hd.
  specialize (Hd ltac:(lra)). lra.
Qed.

Lemma toDouble_lt_1 (r : Q) :
  0 <= r -> r < 1 -> toDouble r <= 9007199254740991 # 9007199254740992.
Proof.
  intros H0 H1. destruct (toDouble_bounds r H0) as [_ Hle].
  destruct (Qlt_le_dec r (1 # 2)) as [Hs | Hs]; [lra |].
  assert (Hr : 0 < r) by lra.
  assert (Hu : ulp r = 2 ^ (-1 - 52))
    by (apply ulp_normal; [constants; lra | constants; lra | lia]).
  pose proof (toDouble_lt 9007199254740992 r Hr) as Hd.
  rewrite Hu in Hd. constants.
  change (inject_Z 9007199254740992) with (9007199254740992 # 1) in Hd.
  change (inject_Z (9007199254740992 - 1)) with (9007199254740991 # 1) in Hd.
  specialize (Hd ltac:(lra)). lra.
Qed.

(** [Math.floor(r * 3)] in doubles: 0 below the double under one third, 1
    from there to below the double under two thirds, 2 from there on. *)
Lemma Math_floor_times_3 (r : Q) :
  0 <= r -> r < 1 ->
  (r < third_below -> Math_floor (times r 3) = 0%Z)
  /\ (third_below <= r -> r < two_thirds_below -> Math_floor (times r 3) = 1%Z)
  /\ (two_thirds_below <= r -> Math_floor (times r 3) = 2%Z).
Proof.
  intros H0 H1.
  change (times r 3) with (nearest (toDouble r * inject_Z 3)).
  destruct (toDouble_bounds r H0) as [Hd0 Hdr].
  pose proof (toDouble_lt_1 r H0 H1) as Hd1.
  pose proof (nearest_nonneg (toDouble r * inject_Z 3)) as Hn0.
  change (inject_Z 3) with 3 in *.
  unfold Math_floor. split; [| split].
  - unfold third_below. intros Hr. apply Qfloor_eq; [exact Hn0 |].
    change (inject_Z 0 + 1) with 1. apply nearest_lt_1; lra.
  - intros Hlo Hhi. pose proof (toDouble_ge_third r Hlo H1) as Hd.
    unfold third_below, two_thirds_below in *.
    apply Qfloor_eq.
    + change (inject_Z 1) with 1. apply nearest_ge_1. lra.
    + change (inject_Z 1 + 1) with 2. apply nearest_lt_2; lra.
  - intros Hlo. pose proof (toDouble_ge_two_thirds r Hlo H1) as Hd.
    unfold two_thirds_below in *. apply Qfloor_eq.
    + change (inject_Z 2) with 2. apply nearest_ge_2. lra.
    + change (inject_Z 2 + 1) with 3. apply nearest_lt_3; lra.
Qed.

(** At the double 0.6666666666666666 the double product with 3 is 2, where
    the exact product is below 2; the double is its own truncation. *)
Example times_two_thirds_below :
  Math_floor (times two_thirds_below 3) = 2%Z
  /\ Math_floor (two_thirds_below * inject_Z 3) = 1%Z
  /\ toDouble two_thirds_below == two_thirds_below.
Proof. repeat split; vm_compute; reflexivity. Qed.

(** The two thresholds are doubles, and the rationals one third and two
    thirds, which are not, are read as them. *)
Example thirds_as_doubles :
  toDouble (1 # 3) == third_below /\ toDouble (2 # 3) == two_thirds_below.
Proof. split; vm_compute; reflexivity. Qed.

(** The threshold of the noise is a double: a draw is below it exactly when
    the double at or below the draw is. *)
Lemma toDouble_lt_noise (r : Q) :
  0 <= r -> r < 1 ->
  (toDouble r < ShapeValidation.noise <-> r < ShapeValidation.noise).
Proof.
  unfold ShapeValidation.noise. intros H0 H1.
  destruct (toDouble_bounds r H0) as [Hd0 Hdr].
  split; intros H; [| lra].
  destruct (Qlt_le_dec r (5404319552844595 # 18014398509481984)) as [Hs | Hs];
    [exact Hs | exfalso].
  assert (Hr : 0 < r) by lra.
  destruct (Qlt_le_dec r (1 # 2)) as [Hh | Hh].
  - assert (Hu : ulp r = 2 ^ (-2 - 52))
      by (apply ulp_normal; [constants; lra | constants; lra | lia]).
    pose proof (toDouble_ge 5404319552844595 r Hr) as Hd.
    rewrite Hu in Hd. constants.
    change (inject_Z 5404319552844595) with (5404319552844595 # 1) in Hd.
    specialize (Hd ltac:(lra)). lra.
  - assert (Hu : ulp r = 2 ^ (-1 - 52))
      by (apply ulp_normal; [constants; lra | constants; lra | lia]).
    pose proof (toDouble_ge 4503599627370496 r Hr) as Hd.
    rewrite Hu in Hd. constants.
    change (inject_Z 4503599627370496) with (4503599627370496 # 1) in Hd.
    specialize (Hd ltac:(lra)). lra.
Qed.

End Binary64.

(** ** Random draws and the default sort *)

Section Draws.
Import JS.

Lemma Math_floor_range (r : Q) (n : Z) :
  (0 <= r)%Q -> (r < 1)%Q -> 0 < n ->
  0 <= Math_floor (r * inject_Z n) < n.
Proof.
  intros H0 H1 Hn. unfold Math_floor.
  assert (Hn' : (0 < inject_Z n)%Q).
  { change (inject_Z 0 < inject_Z n)%Q. now rewrite <- Zlt_Qlt. }
  split.
  - change 0 with (Qfloor (inject_Z 0)). apply Qfloor_resp_le.
    apply Qmult_le_0_compat; [assumption | now apply Qlt_le_weak].
  - rewrite Zlt_Qlt.
    apply Qle_lt_trans with (r * inject_Z n)%Q; [apply Qfloor_le |].
    setoid_replace (inject_Z n) with (1 * inject_Z n)%Q at 2 by ring.
    now apply Qmult_lt_compat_r.
Qed.

(** The products by 4 and 16 are exact in doubles. *)
Lemma Math_floor_times_4 (r : Q) :
  (0 <= r)%Q -> (r < 1)%Q -> Math_floor (times r 4) = Math_floor (r * inject_Z 4).
Proof. intros H0 H1. exact (Math_floor_times_pow2 r 2 H0 H1 ltac:(lia)). Qed.

Lemma Math_floor_times_16 (r : Q) :
  (0 <= r)%Q -> (r < 1)%Q -> Math_floor (times r 16) = Math_floor (r * inject_Z 16).
Proof. intros H0 H1. exact (Math_floor_times_pow2 r 4 H0 H1 ltac:(lia)). Qed.

(** The index drawn for an array of 3, 4 or 16 elements is inside it. *)
Lemma Math_floor_times_range (r : Q) (n : Z) :
  (0 <= r)%Q -> (r < 1)%Q -> n = 3 \/ n = 4 \/ n = 16 ->
  0 <= Math_floor (times r n) < n.
Proof.
  intros H0 H1 [-> | [-> | ->]].
  - destruct (Math_floor_times_3 r H0 H1) as (F0 & F1 & F2).
    destruct (Qlt_le_dec r third_below) as [Ha | Ha]; [rewrite (F0 Ha); lia |].
    destruct (Qlt_le_dec r two_thirds_below) as [Hb | Hb];
      [rewrite (F1 Ha Hb) | rewrite (F2 Hb)]; lia.
  - rewrite (Math_floor_times_4 r H0 H1). apply Math_floor_range; auto; lia.
  - rewrite (Math_floor_times_16 r H0 H1). apply Math_floor_range; auto; lia.
Qed.

Variable rnd : Random.
Hypothesis rnd_unit : unit_interval rnd.

Lemma random_below_range (n : Z) (k : nat) :
  n = 3 \/ n = 4 \/ n = 16 ->
  exists z, random_below n rnd k = Some (z, S k) /\ 0 <= z < n
            /\ z = Math_floor (times (rnd k) n).
Proof.
  intros Hn. unfold random_below, bind, Math_random, ret.
  eexists. split; [reflexivity |]. split; [| reflexivity].
  destruct (rnd_unit k). now apply Math_floor_times_range.
Qed.

Lemma random_below_inv (n z : Z) (k k' : nat) :
  random_below n rnd k = Some (z, k') -> n = 3 \/ n = 4 \/ n = 16 ->
  0 <= z < n /\ k' = S k.
Proof.
  intros H Hn. destruct (random_below_range n k Hn) as (z' & Hz & Hr & _).
  rewrite Hz in H. injection H as <- <-. auto.
Qed.


Lemma random_below_4 (k : nat) :
  random_below 4 rnd k = Some (Math_floor (rnd k * inject_Z 4), S k).
Proof.
  unfold random_below, bind, Math_random, ret.
  destruct (rnd_unit k) as [H0 H1]. now rewrite (Math_floor_times_4 _ H0 H1).
Qed.

Lemma bind_Some {A B : Type} (m : M A) (f : A -> M B) (k : nat) (b : B)
    (k' : nat) :
  bind m f rnd k = Some (b, k') ->
  exists a k1, m rnd k = Some (a, k1) /\ f a rnd k1 = Some (b, k').
Proof.
  unfold bind. destruct (m rnd k) as [[a k1] |]; [| discriminate].
  intros H. exists a, k1. auto.
Qed.

(** Reading one of three array elements at a drawn index. *)
Lemma get_in_range {A : Type} (xs : list A) (i : Z) :
  0 <= i < Z.of_nat (length xs) -> exists a, get xs i = Some a /\ In a xs.
Proof.
  intros Hi. unfold get.
  destruct (i <? 0) eqn:E; [apply Z.ltb_lt in E; lia |].
  destruct (nth_error xs (Z.to_nat i)) as [a |] eqn:Hn.
  - exists a. split; [reflexivity | eapply nth_error_In; eassumption].
  - apply nth_error_None in Hn. lia.
Qed.

End Draws.

Section DefaultSort.
Import JS.

Lemma insert_Permutation (x : Z) (xs : list Z) :
  Permutation (insert x xs) (x :: xs).
Proof.
  induction xs as [| y xs IH]; simpl.
  - apply Permutation_refl.
  - destruct (SortCompare x y).
    + apply Permutation_refl.
    + eapply Permutation_trans; [apply perm_skip, IH | apply perm_swap].
Qed.

Lemma sort_Permutation (xs : list Z) : Permutation (sort xs) xs.
Proof.
  induction xs as [| x xs IH]; simpl.
  - constructor.
  - eapply Permutation_trans; [apply insert_Permutation | now apply perm_skip].
Qed.

Lemma SortCompare_total (x y : Z) :
  SortCompare x y = false -> SortCompare y x = true.
Proof.
  unfold SortCompare. intros H.
  destruct (String.leb_total (ToString x) (ToString y)); congruence.
Qed.

Lemma insert_Sorted (x : Z) (xs : list Z) :
  Sorted (fun a b => SortCompare a b = true) xs ->
  Sorted (fun a b => SortCompare a b = true) (insert x xs).
Proof.
  induction 1 as [| y xs Hs IH Hhd]; simpl.
  - repeat constructor.
  - destruct (SortCompare x y) eqn:E.
    + repeat constructor; assumption.
    + constructor; [assumption |].
      destruct xs as [| z xs]; simpl in *.
      * constructor. now apply SortCompare_total.
      * destruct (SortCompare x z); constructor;
          [now apply SortCompare_total | now inversion Hhd].
Qed.

(** The result of [sort()] is ordered by the string conversions. *)
Lemma sort_Sorted (xs : list Z) :
  Sorted (fun a b => SortCompare a b = true) (sort xs).
Proof.
  induction xs as [| x xs IH]; simpl; [constructor | now apply insert_Sorted].
Qed.

End DefaultSort.

(** ** Challenge generation *)

Section Generation.
Import JS CaptchaValidator.

Lemma tape_unit (draws : list Q) :
  Forall (fun q => (0 <= q)%Q /\ (q < 1)%Q) draws -> unit_interval (tape draws).
Proof.
  intros Hall k. unfold tape.
  destruct (Nat.lt_ge_cases k (length draws)) as [Hk | Hk].
  - rewrite Forall_forall in Hall. apply Hall. now apply nth_In.
  - rewrite nth_overflow by assumption. split; [apply Qle_refl | reflexivity].
Qed.

Variable rnd : Random.
Hypothesis rnd_unit : unit_interval rnd.

(** The loop keeps its array duplicate-free and inside the grid, and leaves
    only when the array has the requested length. *)
Lemma fillSectors_spec (fuel : nat) (numCorrectSectors : Z) :
  forall (acc : list Z) (k : nat) (sectors : list Z) (k' : nat),
    fillSectors fuel numCorrectSectors acc rnd k = Some (sectors, k') ->
    NoDup acc -> Forall sector_index acc ->
    Z.of_nat (length acc) <= numCorrectSectors ->
    NoDup sectors /\ Forall sector_index sectors
    /\ Z.of_nat (length sectors) = numCorrectSectors.
Proof.
  induction fuel as [| fuel IH]; intros acc k sectors k' Hrun Hnd Hin Hlen;
    simpl in Hrun;
    destruct (Z.of_nat (length acc) <? numCorrectSectors) eqn:Hcond;
    try discriminate;
    try (injection Hrun as <- <-; apply Z.ltb_ge in Hcond;
         repeat split; [assumption | assumption | lia]).
  apply Z.ltb_lt in Hcond. unfold bind in Hrun.
  destruct (random_below_range rnd rnd_unit 16 k ltac:(auto))
    as (sector & Hdraw & Hrange & _).
  rewrite Hdraw in Hrun.
  destruct (includes acc sector) eqn:Hinc; simpl in Hrun.
  - eapply IH; eauto.
  - apply includes_not_In in Hinc.
    eapply IH; [eassumption | | |].
    + unfold push. apply NoDup_app; [assumption | repeat constructor; auto |].
      intros a Ha [<- | []]. contradiction.
    + unfold push. apply Forall_app. split; [assumption | now constructor].
    + unfold push. rewrite length_app. simpl. lia.
Qed.

(** What holds of every generated challenge: between two and five correct
    sectors, all different, all in the grid, in the order of [sort()]. *)
Lemma generateChallenge_sectors (p : Props) (fuel k : nat)
    (ch : ValidationChallenge) (k' : nat) :
  generateChallenge p fuel rnd k = Some (ch, k') ->
  (2 <= length (correctSectors ch) <= 5)%nat
  /\ NoDup (correctSectors ch)
  /\ Forall sector_index (correctSectors ch)
  /\ Sorted (fun a b => SortCompare a b = true) (correctSectors ch).
Proof.
  unfold generateChallenge. intros Hgen.
  apply bind_Some in Hgen. destruct Hgen as (i & k1 & _ & Hgen).
  apply bind_Some in Hgen. destruct Hgen as (sh & k2 & _ & Hgen).
  apply bind_Some in Hgen. destruct Hgen as (co & k3 & _ & Hgen).
  apply bind_Some in Hgen. destruct Hgen as (n & k4 & Hn & Hgen).
  apply bind_Some in Hgen. destruct Hgen as (a & k5 & Hfill & Hgen).
  unfold ret in Hgen. injection Hgen as <- _. simpl.
  apply (random_below_inv rnd rnd_unit) in Hn; [| auto].
  destruct Hn as (Hrange & _).
  apply fillSectors_spec in Hfill; [| constructor | constructor | simpl; lia].
  destruct Hfill as (Hnd & Hin & Hlen).
  pose proof (sort_Permutation a) as Hperm.
  repeat split.
  - rewrite (Permutation_length Hperm). lia.
  - rewrite (Permutation_length Hperm). lia.
  - eapply Permutation_NoDup; [apply Permutation_sym |]; eassumption.
  - eapply Permutation_Forall; [apply Permutation_sym |]; eassumption.
  - apply sort_Sorted.
Qed.

End Generation.

(** C3. A run of the generation step: with colour off and the draws 0.5, 0,
    0.125 and 0.625 it ends after four draws with two correct sectors, both
    in the grid and different, listed as [10; 2], which is not in ascending
    numeric order: [sort()] compares the numerals ["10"] and ["2"] as
    strings. *)
Theorem generated_sectors_not_ascending :
  exists ch,
    JS.unit_interval (JS.tape Sample.draws)
    /\ CaptchaValidator.generateChallenge Sample.props 8%nat
         (JS.tape Sample.draws) 0%nat
       = Some (ch, 4%nat)
    /\ CaptchaValidator.correctSectors ch = [10; 2]
    /\ ~ Sorted Z.lt (CaptchaValidator.correctSectors ch)
    /\ ~ Sorted Z.le (CaptchaValidator.correctSectors ch).
Proof.
  eexists. split; [| split; [cbv; reflexivity |]].
  - apply tape_unit. repeat constructor; discriminate.
  - split; [reflexivity |]. simpl.
    split; intros H; inversion H as [| a l _ Hhd]; subst;
      inversion Hhd as [| b l' Hlt]; subst; lia.
Qed.

(** ** The watermark plan *)

Section Plan.
Import JS ShapeValidation.

Variable ch : CaptchaValidator.ValidationChallenge.
Variable rnd : Random.
Hypothesis rnd_unit : unit_interval rnd.

Lemma pick_of_three {A : Type} (xs : list A) (k : nat) :
  length xs = 3%nat ->
  exists a, get xs (Math_floor (times (rnd k) (Z.of_nat (length xs)))) = Some a.
Proof.
  intros Hlen.
  destruct (random_below_range rnd rnd_unit (Z.of_nat (length xs)) k
              ltac:(left; now rewrite Hlen)) as (i & _ & Hi & Hfloor).
  destruct (get_in_range xs i Hi) as (a & Ha & _).
  exists a. now rewrite <- Hfloor.
Qed.

(** One iteration: it always has a result, reads [drawsOf] draws and makes
    the entry described by [drawn]. *)
Lemma sectorEntry_spec (i k : nat) :
  exists w,
    sectorEntry ch (Z.of_nat i) rnd k = Some (w, (k + drawsOf ch i)%nat)
    /\ drawn ch rnd k i w.
Proof.
  unfold sectorEntry, drawsOf, drawn.
  destruct (includes (CaptchaValidator.correctSectors ch) (Z.of_nat i)) eqn:Hinc.
  - destruct (pick_of_three shapes k eq_refl) as (sh & Hsh).
    destruct (pick_of_three colors (S k) eq_refl) as (co & Hco).
    cbv beta iota delta [bind random_below Math_random ret].
    rewrite Hsh. unfold defined, ret. cbv beta iota.
    rewrite Hco. cbv beta iota.
    eexists. split.
    + replace (k + 2)%nat with (S (S k)) by lia. reflexivity.
    + simpl sector. simpl hasWatermark. simpl shape. simpl color.
      split; [reflexivity |]. split; [auto | discriminate].
  - destruct (pick_of_three shapes (S k) eq_refl) as (sh & Hsh).
    destruct (pick_of_three colors (S (S k)) eq_refl) as (co & Hco).
    cbv beta iota delta [bind random_below Math_random ret].
    rewrite Hsh. unfold defined, ret. cbv beta iota.
    rewrite Hco. cbv beta iota.
    eexists. split.
    + replace (k + 3)%nat with (S (S (S k))) by lia. reflexivity.
    + simpl sector. simpl hasWatermark. simpl shape. simpl color.
      split; [reflexivity |]. split; [discriminate | auto].
Qed.

Lemma drawsIn_S (a n : nat) :
  drawsIn ch a (S n) = (drawsOf ch a + drawsIn ch (S a) n)%nat.
Proof. reflexivity. Qed.

Lemma drawsIn_snoc (a n : nat) :
  drawsIn ch a (S n) = (drawsIn ch a n + drawsOf ch (a + n))%nat.
Proof.
  unfold drawsIn. rewrite seq_S, map_app, list_sum_app. simpl. lia.
Qed.

(** The loop over the sectors [a], ..., [a + n - 1]. *)
Lemma forSectors_spec (n : nat) :
  forall (a : nat) (data : list (option WatermarkData)) (k : nat),
  exists fresh,
    forSectors (map Z.of_nat (seq a n)) ch data rnd k
    = Some (data ++ fresh, (k + drawsIn ch a n)%nat)
    /\ length fresh = n
    /\ forall j, (j < n)%nat ->
         exists w, nth_error fresh j = Some (Some w)
                   /\ drawn ch rnd (k + drawsIn ch a j) (a + j) w.
Proof.
  induction n as [| n IH]; intros a data k.
  - exists []. simpl. unfold ret, drawsIn. simpl.
    rewrite app_nil_r, Nat.add_0_r. repeat split. intros j Hj. lia.
  - simpl seq. simpl map. simpl forSectors. unfold bind.
    destruct (sectorEntry_spec a k) as (w & Hw & Hdrawn). rewrite Hw.
    destruct (IH (S a) (push data (Some w)) (k + drawsOf ch a)%nat)
      as (fresh & Hrun & Hlen & Hentries).
    exists (Some w :: fresh). rewrite Hrun. unfold push.
    rewrite <- app_assoc, drawsIn_S. simpl. split; [f_equal; f_equal; lia |].
    split; [now rewrite Hlen |].
    intros [| j] Hj.
    + exists w. split; [reflexivity |].
      unfold drawsIn. simpl. now rewrite !Nat.add_0_r.
    + destruct (Hentries j ltac:(lia)) as (w' & Hnth & Hd).
      exists w'. split; [exact Hnth |].
      rewrite drawsIn_S.
      replace (k + (drawsOf ch a + drawsIn ch (S a) j))%nat
        with (k + drawsOf ch a + drawsIn ch (S a) j)%nat by lia.
      replace (a + S j)%nat with (S a + j)%nat by lia. exact Hd.
Qed.

End Plan.

Section Overwrite.
Import JS ShapeValidation.

Lemma replace_length {A : Type} (xs : list (option A)) (v : A) :
  forall n, (n < length xs)%nat -> length (replace xs n v) = length xs.
Proof.
  induction xs as [| x xs IH]; intros n Hn; simpl in *; [lia |].
  destruct n as [| n]; simpl; [reflexivity |]. rewrite IH; [reflexivity | lia].
Qed.

Lemma replace_nth_error {A : Type} (xs : list (option A)) (v : A) :
  forall n i, (n < length xs)%nat ->
    nth_error (replace xs n v) i
    = if (n =? i)%nat then Some (Some v) else nth_error xs i.
Proof.
  induction xs as [| x xs IH]; intros n i Hn; simpl in *; [lia |].
  destruct n as [| n], i as [| i]; simpl; try reflexivity.
  apply IH. lia.
Qed.

Lemma set_spec {A : Type} (xs : list (option A)) (s : Z) (v : A) :
  0 <= s < Z.of_nat (length xs) ->
  length (set xs s v) = length xs
  /\ forall i, nth_error (set xs s v) i
               = if s =? Z.of_nat i then Some (Some v) else nth_error xs i.
Proof.
  intros Hs. unfold set.
  destruct (s <? 0) eqn:E; [apply Z.ltb_lt in E; lia |].
  split; [apply replace_length; lia |].
  intros i. rewrite replace_nth_error by lia.
  destruct (Nat.eqb_spec (Z.to_nat s) i) as [Heq | Hne];
    destruct (Z.eqb_spec s (Z.of_nat i)) as [Heq' | Hne'];
    try reflexivity; lia.
Qed.

Variable ch : CaptchaValidator.ValidationChallenge.

(** The [forEach] pass: the array keeps its length; a slot whose index is
    among the sectors visited holds the required entry, any other slot is
    untouched. *)
Lemma forEach_spec (sectors : list Z) :
  forall data : list (option WatermarkData),
    Forall (fun s => 0 <= s < Z.of_nat (length data)) sectors ->
    let data' := fold_left (fun d s => set d s (required ch s)) sectors data in
    length data' = length data
    /\ forall i, nth_error data' i
                 = if includes sectors (Z.of_nat i)
                   then Some (Some (required ch (Z.of_nat i)))
                   else nth_error data i.
Proof.
  induction sectors as [| s sectors IH]; intros data Hall; simpl.
  - auto.
  - inversion Hall as [| s' l Hs Hrest]; subst.
    destruct (set_spec data s (required ch s) Hs) as (Hlen & Hnth).
    destruct (IH (set data s (required ch s))) as (Hlen' & Hnth').
    { now rewrite Hlen. }
    split; [congruence |].
    intros i. rewrite Hnth', Hnth.
    destruct (Z.eqb_spec s (Z.of_nat i)) as [-> | Hne]; simpl;
      destruct (includes sectors (Z.of_nat i)); reflexivity.
Qed.

Lemma drawsIn_app (a n m : nat) :
  drawsIn ch a (n + m) = (drawsIn ch a n + drawsIn ch (a + n) m)%nat.
Proof.
  unfold drawsIn. now rewrite seq_app, map_app, list_sum_app.
Qed.

(** The draws of an earlier sector come before those of a later one. *)
Lemma drawsIn_lt (i j : nat) :
  (i < j)%nat -> (drawsIn ch 0 i + drawsOf ch i <= drawsIn ch 0 j)%nat.
Proof.
  intros Hij.
  assert (Hone : drawsIn ch i 1 = drawsOf ch i)
    by (unfold drawsIn; simpl; lia).
  replace j with (i + (1 + (j - i - 1)))%nat by lia.
  rewrite !drawsIn_app. simpl (0 + i)%nat. rewrite Hone. lia.
Qed.

End Overwrite.

Section Thresholds.
Import JS ShapeValidation.

(** [a < b] on draws is the order of the rationals. *)
Lemma lt_Qlt (a b : Q) : lt a b = true <-> (a < b)%Q.
Proof.
  unfold lt. rewrite negb_true_iff. split.
  - intros H. apply Qnot_le_lt. intros Hle. apply Qle_bool_iff in Hle.
    congruence.
  - intros H. destruct (Qle_bool b a) eqn:E; [| reflexivity].
    apply Qle_bool_iff in E. exfalso. exact (Qlt_not_le _ _ H E).
Qed.

(** Which element of a three-element array a draw selects: the first below
    the double under one third, the second from there to below the double
    under two thirds, the third from there on. *)
Lemma element_of_draw {A : Type} (x y z a : A) (r : Q) :
  (0 <= r)%Q -> (r < 1)%Q ->
  get [x; y; z] (Math_floor (times r 3)) = Some a ->
  ((r < third_below)%Q /\ a = x)
  \/ ((third_below <= r)%Q /\ (r < two_thirds_below)%Q /\ a = y)
  \/ ((two_thirds_below <= r)%Q /\ a = z).
Proof.
  intros H0 H1 Hget.
  destruct (Math_floor_times_3 r H0 H1) as (F0 & F1 & F2).
  destruct (Qlt_le_dec r third_below) as [Ha | Ha].
  - rewrite (F0 Ha) in Hget. injection Hget as <-. auto.
  - destruct (Qlt_le_dec r two_thirds_below) as [Hb | Hb].
    + rewrite (F1 Ha Hb) in Hget. injection Hget as <-. auto.
    + rewrite (F2 Hb) in Hget. injection Hget as <-. auto.
Qed.

Lemma shape_of_draw (r : Q) (sh : CaptchaValidator.ValidationShape) :
  (0 <= r)%Q -> (r < 1)%Q ->
  get shapes (Math_floor (times r 3)) = Some sh ->
  (sh = CaptchaValidator.triangle <-> (r < third_below)%Q)
  /\ (sh = CaptchaValidator.square
      <-> (third_below <= r)%Q /\ (r < two_thirds_below)%Q)
  /\ (sh = CaptchaValidator.circle <-> (two_thirds_below <= r)%Q).
Proof.
  intros H0 H1 Hget. unfold shapes in Hget.
  assert (H12 : (third_below < two_thirds_below)%Q) by reflexivity.
  destruct (element_of_draw _ _ _ _ r H0 H1 Hget)
    as [(Ha & ->) | [(Ha & Hb & ->) | (Hb & ->)]];
    (split; [| split]); split; intros E;
    try discriminate E; try reflexivity; try assumption;
    try (split; assumption);
    try (match type of E with _ /\ _ => destruct E as [E E'] end);
    exfalso; unfold third_below, two_thirds_below in *; lra.
Qed.

Lemma color_of_draw (r : Q) (co : CaptchaValidator.ValidationColor) :
  (0 <= r)%Q -> (r < 1)%Q ->
  get colors (Math_floor (times r 3)) = Some co ->
  (co = CaptchaValidator.red <-> (r < third_below)%Q)
  /\ (co = CaptchaValidator.green
      <-> (third_below <= r)%Q /\ (r < two_thirds_below)%Q)
  /\ (co = CaptchaValidator.blue <-> (two_thirds_below <= r)%Q).
Proof.
  intros H0 H1 Hget. unfold colors in Hget.
  assert (H12 : (third_below < two_thirds_below)%Q) by reflexivity.
  destruct (element_of_draw _ _ _ _ r H0 H1 Hget)
    as [(Ha & ->) | [(Ha & Hb & ->) | (Hb & ->)]];
    (split; [| split]); split; intros E;
    try discriminate E; try reflexivity; try assumption;
    try (split; assumption);
    try (match type of E with _ /\ _ => destruct E as [E E'] end);
    exfalso; unfold third_below, two_thirds_below in *; lra.
Qed.

End Thresholds.

(** C6. For a challenge whose correct sectors lie in the grid and any stream
    of draws in [0, 1), the plan has a result with exactly 16 entries, entry
    [i] carrying sector index [i].  The entry of a correct sector has
    [hasWatermark = true], the shape of the challenge and its colour, or red
    when it has none.  The entry of any other sector is decided by three
    draws of its own, read at positions that come before every draw of a
    later sector: it has a watermark exactly when the first is below the
    double of the literal [0.3]; its shape is the triangle, the square or
    the circle as the second lies in the first, second or third of the
    intervals that the doubles under one third and two thirds cut [0, 1)
    into, and its colour is red, green or blue by the third draw in the same
    way.  The threshold is within 2^-56 of three tenths, and each of the
    three intervals has length one third to within 2^-53: on a uniform draw
    the three values are equally likely. *)
Theorem watermarkData_plan (ch : CaptchaValidator.ValidationChallenge)
    (rnd : JS.Random) (k : nat) :
  JS.unit_interval rnd ->
  Forall CaptchaValidator.sector_index (CaptchaValidator.correctSectors ch) ->
  exists data,
    ShapeValidation.watermarkData ch rnd k
    = Some (data, (k + ShapeValidation.drawsIn ch 0 16)%nat)
    /\ length data = 16%nat
    /\ (forall i, (i < 16)%nat ->
        exists w,
          nth_error data i = Some (Some w)
          /\ ShapeValidation.sector w = Z.of_nat i
          /\ (In (Z.of_nat i) (CaptchaValidator.correctSectors ch) ->
              ShapeValidation.hasWatermark w = true
              /\ ShapeValidation.shape w = CaptchaValidator.shape ch
              /\ ShapeValidation.color w
                 = match CaptchaValidator.color ch with
                   | Some c => c
                   | None => CaptchaValidator.red
                   end)
          /\ (~ In (Z.of_nat i) (CaptchaValidator.correctSectors ch) ->
              let d := (k + ShapeValidation.drawsIn ch 0 i)%nat in
              let third := (6004799503160661 # 18014398509481984)%Q in
              let two_thirds := (6004799503160661 # 9007199254740992)%Q in
              (ShapeValidation.hasWatermark w = true
               <-> (rnd d < 5404319552844595 # 18014398509481984)%Q)
              /\ (ShapeValidation.shape w = CaptchaValidator.triangle
                  <-> (rnd (S d) < third)%Q)
              /\ (ShapeValidation.shape w = CaptchaValidator.square
                  <-> (third <= rnd (S d))%Q /\ (rnd (S d) < two_thirds)%Q)
              /\ (ShapeValidation.shape w = CaptchaValidator.circle
                  <-> (two_thirds <= rnd (S d))%Q)
              /\ (ShapeValidation.color w = CaptchaValidator.red
                  <-> (rnd (S (S d)) < third)%Q)
              /\ (ShapeValidation.color w = CaptchaValidator.green
                  <-> (third <= rnd (S (S d)))%Q
                      /\ (rnd (S (S d)) < two_thirds)%Q)
              /\ (ShapeValidation.color w = CaptchaValidator.blue
                  <-> (two_thirds <= rnd (S (S d)))%Q)
              /\ (forall j, (i < j)%nat ->
                  (d + 3 <= k + ShapeValidation.drawsIn ch 0 j)%nat)))
    /\ ((3 # 10) - (5404319552844595 # 18014398509481984)
        == 1 # 90071992547409920)%Q
    /\ ((1 # 3) - (6004799503160661 # 18014398509481984)
        == 1 # 54043195528445952)%Q
    /\ ((2 # 3) - (6004799503160661 # 9007199254740992)
        == 1 # 27021597764222976)%Q.
Proof.
  intros Hrnd Hgrid.
  destruct (forSectors_spec ch rnd Hrnd 16 0 [] k) as (fresh & Hloop & Hlen & Hentries).
  unfold ShapeValidation.watermarkData, JS.bind. rewrite Hloop. simpl app.
  unfold JS.ret, ShapeValidation.forEachCorrect.
  destruct (forEach_spec ch (CaptchaValidator.correctSectors ch) fresh)
    as (Hlen' & Hnth).
  { rewrite Hlen. exact Hgrid. }
  eexists. split; [reflexivity |]. split; [congruence |].
  split; [| repeat split].
  intros i Hi. rewrite Hnth.
  destruct (Hentries i Hi) as (w & Hw & Hsector & _ & Hnoise).
  rewrite Nat.add_0_l in *.
  destruct (JS.includes (CaptchaValidator.correctSectors ch) (Z.of_nat i)) eqn:Hinc.
  - apply includes_In in Hinc.
    eexists. split; [reflexivity |]. simpl.
    split; [reflexivity |]. split; [auto | contradiction].
  - destruct (Hnoise eq_refl) as (Hmark & Hshape & Hcolor).
    pose proof Hinc as Hout. apply includes_not_In in Hout.
    exists w. split; [exact Hw |]. split; [exact Hsector |].
    split; [contradiction |]. intros _. cbv zeta.
    set (d := (k + ShapeValidation.drawsIn ch 0 i)%nat) in *.
    destruct (Hrnd (S d)) as [S0 S1]. destruct (Hrnd (S (S d))) as [C0 C1].
    destruct (shape_of_draw _ _ S0 S1 Hshape) as (Sh1 & Sh2 & Sh3).
    destruct (color_of_draw _ _ C0 C1 Hcolor) as (Co1 & Co2 & Co3).
    split; [rewrite Hmark; apply lt_Qlt |].
    do 6 (split; [assumption |]).
    intros j Hj. pose proof (drawsIn_lt ch i j Hj) as Hlt.
    unfold ShapeValidation.drawsOf in Hlt. rewrite Hinc in Hlt.
    unfold d. lia.
Qed.

Lemma watermarkData_plan_witness :
  exists data w,
    ShapeValidation.watermarkData Sample.challenge (JS.tape Sample.draws) 0%nat
    = Some (data, 46%nat)
    /\ length data = 16%nat
    /\ nth_error data 0 = Some (Some w)
    /\ ShapeValidation.hasWatermark w = false
    /\ ShapeValidation.shape w = CaptchaValidator.triangle
    /\ ShapeValidation.color w = CaptchaValidator.red.
Proof.
  assert (Hrnd : JS.unit_interval (JS.tape Sample.draws)).
  { apply tape_unit. repeat constructor; discriminate. }
  assert (Hgrid : Forall CaptchaValidator.sector_index
                    (CaptchaValidator.correctSectors Sample.challenge)).
  { repeat constructor; unfold CaptchaValidator.sector_index; simpl; lia. }
  destruct (watermarkData_plan Sample.challenge (JS.tape Sample.draws) 0%nat
              Hrnd Hgrid)
    as (data & Hrun & Hlen & Hentries & _).
  destruct (Hentries 0%nat ltac:(lia)) as (w & Hw & _ & _ & Hdecoy).
  assert (Hout : ~ In (Z.of_nat 0) (CaptchaValidator.correctSectors Sample.challenge)).
  { simpl. intuition lia. }
  destruct (Hdecoy Hout) as (Hmark & Htriangle & _ & _ & Hred & _).
  exists data, w. split; [exact Hrun |]. split; [exact Hlen |].
  split; [exact Hw |]. split; [| split].
  - destruct (ShapeValidation.hasWatermark w); [| reflexivity].
    pose proof (proj1 Hmark eq_refl) as Hlt. vm_compute in Hlt. discriminate Hlt.
  - apply Htriangle. vm_compute. reflexivity.
  - apply Hred. vm_compute. reflexivity.
Defined.

(** ** Remarks *)

(** The worked example of the scoring rule. *)
Example isCorrect_example :
  CaptchaValidator.isCorrect [2; 5; 9; 13] [2; 5; 9; 13] = true
  /\ CaptchaValidator.isCorrect [2; 5; 9; 13] [2; 5; 9] = false
  /\ CaptchaValidator.isCorrect [2; 5; 9; 13] [2; 5; 9; 13; 0] = false.
Proof. repeat split; reflexivity. Qed.

(** Clicking sectors keeps the selection duplicate-free, so the selection
    step only ever submits a set. *)
Lemma handleSectorClick_NoDup (prev : list Z) (sectorIndex : Z) :
  NoDup prev -> NoDup (ShapeValidation.handleSectorClick prev sectorIndex).
Proof.
  intros Hnd. unfold ShapeValidation.handleSectorClick.
  destruct (JS.includes prev sectorIndex) eqn:Hinc.
  - now apply NoDup_filter.
  - apply includes_not_In in Hinc.
    apply NoDup_app; [assumption | repeat constructor; auto |].
    intros a Ha [<- | []]. contradiction.
Qed.

(** The loop of the generation step need not end: on a stream that repeats
    one value it has no result, whatever the fuel. *)
Lemma fillSectors_repeated_draw (fuel : nat) :
  forall k : nat, CaptchaValidator.fillSectors fuel 2 [0] (JS.tape []) k = None.
Proof.
  induction fuel as [| fuel IH]; intros k; [reflexivity |].
  cbn [CaptchaValidator.fillSectors length Z.of_nat Pos.of_succ_nat Z.ltb Z.compare
       Pos.compare Pos.compare_cont].
  unfold JS.bind at 1.
  assert (Hdraw : JS.random_below 16 (JS.tape []) k = Some (0, S k)).
  { unfold JS.random_below, JS.bind, JS.Math_random, JS.ret, JS.tape.
    destruct k; reflexivity. }
  rewrite Hdraw. simpl JS.includes. cbn [negb]. apply IH.
Qed.

Lemma generateChallenge_repeated_draw (fuel : nat) :
  CaptchaValidator.generateChallenge Sample.props fuel (JS.tape []) 0%nat = None.
Proof.
  destruct (CaptchaValidator.generateChallenge Sample.props fuel (JS.tape []) 0%nat)
    as [[ch k'] |] eqn:Hgen; [exfalso | reflexivity].
  unfold CaptchaValidator.generateChallenge in Hgen.
  apply bind_Some in Hgen. destruct Hgen as (i & k1 & Hi & Hgen).
  apply bind_Some in Hgen. destruct Hgen as (sh & k2 & Hsh & Hgen).
  apply bind_Some in Hgen. destruct Hgen as (co & k3 & Hco & Hgen).
  apply bind_Some in Hgen. destruct Hgen as (n & k4 & Hn & Hgen).
  apply bind_Some in Hgen. destruct Hgen as (a & k5 & Hfill & _).
  injection Hi as <- <-. cbv in Hsh. injection Hsh as <- <-.
  cbv in Hco. injection Hco as <- <-. injection Hn as <- <-.
  destruct fuel as [| fuel]; [discriminate |].
  change (CaptchaValidator.fillSectors fuel 2 [0] (JS.tape []) 3%nat = Some (a, k5))
    in Hfill.
  now rewrite fillSectors_repeated_draw in Hfill.
Qed.

(** Outside the grid the plan is no longer sixteen entries long: a correct
    sector 16 makes the [forEach] pass grow the array by one slot. *)
Example watermarkData_outside_grid :
  exists data k',
    ShapeValidation.watermarkData
      {| CaptchaValidator.shape := CaptchaValidator.square;
         CaptchaValidator.color := None;
         CaptchaValidator.correctSectors := [16] |} (JS.tape []) 0%nat
    = Some (data, k')
    /\ length data = 17%nat.
Proof.
  do 2 eexists. split; [cbv; reflexivity | reflexivity].
Qed.

(** * Further properties *)

(** ** The selection step *)

Section Selection.
Import JS ShapeValidation.

Lemma buttons_sector_index (index : Z) :
  In index buttons <-> CaptchaValidator.sector_index index.
Proof.
  unfold buttons, CaptchaValidator.sector_index. rewrite in_map_iff. split.
  - intros (n & <- & Hn). apply in_seq in Hn. lia.
  - intros Hi. exists (Z.to_nat index). split; [lia | apply in_seq; lia].
Qed.

Lemma handleSectorClick_In (prev : list Z) (sectorIndex x : Z) :
  In x (handleSectorClick prev sectorIndex) <->
  (x = sectorIndex /\ ~ In sectorIndex prev) \/ (x <> sectorIndex /\ In x prev).
Proof.
  unfold handleSectorClick.
  destruct (includes prev sectorIndex) eqn:Hinc.
  - apply includes_In in Hinc. rewrite filter_In, negb_true_iff, Z.eqb_neq. tauto.
  - apply includes_not_In in Hinc. rewrite in_app_iff. simpl.
    destruct (Z.eq_dec x sectorIndex) as [-> | Hne]; intuition congruence.
Qed.

Lemma clicked_snoc (clicks : list Z) (index : Z) :
  clicked (clicks ++ [index]) = handleSectorClick (clicked clicks) index.
Proof. unfold clicked. now rewrite fold_left_app. Qed.

(** Clicking the elements of a duplicate-free list one after the other
    selects exactly that list. *)
Lemma clicks_append (sectors : list Z) :
  forall prev, NoDup (prev ++ sectors) ->
               fold_left handleSectorClick sectors prev = prev ++ sectors.
Proof.
  induction sectors as [| s sectors IH]; intros prev Hnd; simpl.
  - now rewrite app_nil_r.
  - assert (Hout : includes prev s = false).
    { apply includes_not_In. intros Hin.
      apply NoDup_remove_2 in Hnd. apply Hnd. apply in_app_iff. now left. }
    unfold handleSectorClick at 2. rewrite Hout.
    rewrite IH; rewrite <- app_assoc; [reflexivity | exact Hnd].
Qed.

End Selection.

(** X1. A click toggles one sector: afterwards the selection holds the
    clicked sector exactly when it did not hold it before, and any other
    sector exactly when it held it before. *)
Theorem handleSectorClick_toggle (prev : list Z) (sectorIndex x : Z) :
  In x (ShapeValidation.handleSectorClick prev sectorIndex) <->
  (x = sectorIndex /\ ~ In sectorIndex prev) \/ (x <> sectorIndex /\ In x prev).
Proof. apply handleSectorClick_In. Qed.

(** X2. Whatever buttons of the grid are clicked, in whatever order and
    however often, the selection is duplicate-free, lies in the grid and has
    at most 16 elements; and [Validate] passes it on exactly when it is not
    empty. *)
Theorem clicked_selection (clicks : list Z) :
  Forall (fun index => In index ShapeValidation.buttons) clicks ->
  NoDup (ShapeValidation.clicked clicks)
  /\ Forall CaptchaValidator.sector_index (ShapeValidation.clicked clicks)
  /\ (length (ShapeValidation.clicked clicks) <= 16)%nat
  /\ forall (R : Type) (p : ShapeValidation.Props) (onValidate : list Z -> R),
       ShapeValidation.pressValidate p onValidate (ShapeValidation.clicked clicks)
       = match ShapeValidation.clicked clicks with
         | [] => None
         | _ :: _ => Some (onValidate (ShapeValidation.clicked clicks))
         end.
Proof.
  intros Hall.
  assert (Hinv : NoDup (ShapeValidation.clicked clicks)
                 /\ Forall (fun index => In index ShapeValidation.buttons)
                      (ShapeValidation.clicked clicks)).
  { induction clicks as [| index clicks IH] using rev_ind.
    - split; constructor.
    - apply Forall_app in Hall. destruct Hall as [Hall Hlast].
      destruct (IH Hall) as [Hnd Hin]. rewrite clicked_snoc. split.
      + now apply handleSectorClick_NoDup.
      + rewrite Forall_forall in *. intros x Hx.
        apply handleSectorClick_In in Hx.
        destruct Hx as [[-> _] | [_ Hx]]; [| now apply Hin].
        apply Hlast. now left. }
  destruct Hinv as [Hnd Hin]. split; [exact Hnd |]. split; [| split].
  - rewrite Forall_forall in *. intros x Hx. now apply buttons_sector_index, Hin.
  - change 16%nat with (length ShapeValidation.buttons).
    apply NoDup_incl_length; [exact Hnd |].
    intros x Hx. rewrite Forall_forall in Hin. now apply Hin.
  - intros R p onValidate. unfold ShapeValidation.pressValidate,
      ShapeValidation.validateDisabled, ShapeValidation.handleValidate.
    now destruct (ShapeValidation.clicked clicks).
Qed.

Lemma clicked_selection_witness :
  ShapeValidation.clicked [2; 10; 3; 2; 3; 3] = [10; 3]
  /\ NoDup (ShapeValidation.clicked [2; 10; 3; 2; 3; 3]).
Proof.
  split; [reflexivity |].
  apply (clicked_selection [2; 10; 3; 2; 3; 3]).
  repeat (apply Forall_cons; [apply buttons_sector_index;
                              unfold CaptchaValidator.sector_index; lia |]).
  apply Forall_nil.
Defined.

(** X3. Clicking the same sector twice gives back the same selected set, and
    the very same list when the sector was not selected before. *)
Theorem handleSectorClick_twice (prev : list Z) (sectorIndex : Z) :
  (forall x,
      In x (ShapeValidation.handleSectorClick
              (ShapeValidation.handleSectorClick prev sectorIndex) sectorIndex)
      <-> In x prev)
  /\ (~ In sectorIndex prev ->
      ShapeValidation.handleSectorClick
        (ShapeValidation.handleSectorClick prev sectorIndex) sectorIndex = prev).
Proof.
  split.
  - intros x. rewrite !handleSectorClick_In.
    destruct (Z.eq_dec x sectorIndex) as [-> | Hne]; [| tauto].
    destruct (in_dec Z.eq_dec sectorIndex prev); tauto.
  - intros Hout. apply includes_not_In in Hout.
    unfold ShapeValidation.handleSectorClick at 2. rewrite Hout.
    unfold ShapeValidation.handleSectorClick.
    assert (Hin : JS.includes (prev ++ [sectorIndex]) sectorIndex = true).
    { apply includes_In, in_app_iff. right. now left. }
    rewrite Hin, filter_app. simpl. rewrite Z.eqb_refl. simpl.
    rewrite app_nil_r. apply includes_not_In in Hout.
    apply forallb_filter_id. apply forallb_forall. intros y Hy.
    apply negb_true_iff, Z.eqb_neq. congruence.
Qed.

Lemma handleSectorClick_twice_witness :
  ShapeValidation.handleSectorClick
    (ShapeValidation.handleSectorClick [2; 10] 7) 7 = [2; 10].
Proof.
  apply (handleSectorClick_twice [2; 10] 7). simpl. intuition lia.
Defined.

(** ** Scoring, continued *)

Section ScoringOrder.
Import JS CaptchaValidator.

Lemma isCorrect_Permutation (correct correct' selected selected' : list Z) :
  Permutation correct correct' -> Permutation selected selected' ->
  isCorrect correct selected = isCorrect correct' selected'.
Proof.
  intros Hc Hs.
  assert (Himp : forall a a' b b',
             Permutation a a' -> Permutation b b' ->
             isCorrect a b = true -> isCorrect a' b' = true).
  { intros a a' b b' Ha Hb H. apply isCorrect_true in H.
    destruct H as (Hlen & Hba & Hab). apply isCorrect_true. repeat split.
    - rewrite <- (Permutation_length Ha), <- (Permutation_length Hb). exact Hlen.
    - intros x Hx. apply (Permutation_in _ Ha), Hba.
      now apply (Permutation_in _ (Permutation_sym Hb)).
    - intros x Hx. apply (Permutation_in _ Hb), Hab.
      now apply (Permutation_in _ (Permutation_sym Ha)). }
  destruct (isCorrect correct selected) eqn:E1;
    destruct (isCorrect correct' selected') eqn:E2; try reflexivity.
  - rewrite (Himp _ _ _ _ Hc Hs E1) in E2. discriminate.
  - rewrite (Himp _ _ _ _ (Permutation_sym Hc) (Permutation_sym Hs) E2) in E1.
    discriminate.
Qed.

End ScoringOrder.

(** X4. The score does not depend on the order of either list: rearranging
    the correct sectors or the selection leaves it unchanged; and it is the
    same with the two lists exchanged. *)
Theorem isCorrect_order_insensitive (correct correct' selected selected' : list Z) :
  Permutation correct correct' -> Permutation selected selected' ->
  CaptchaValidator.isCorrect correct selected
  = CaptchaValidator.isCorrect correct' selected'
  /\ CaptchaValidator.isCorrect correct selected
     = CaptchaValidator.isCorrect selected correct.
Proof.
  intros Hc Hs. split; [now apply isCorrect_Permutation |].
  unfold CaptchaValidator.isCorrect.
  rewrite (Nat.eqb_sym (length selected) (length correct)).
  rewrite <- !andb_assoc. f_equal. apply andb_comm.
Qed.

Lemma isCorrect_order_insensitive_witness :
  CaptchaValidator.isCorrect [2; 5; 9; 13] [13; 9; 2; 5]
  = CaptchaValidator.isCorrect [13; 2; 5; 9] [2; 5; 9; 13].
Proof.
  apply (isCorrect_order_insensitive [2; 5; 9; 13] [13; 2; 5; 9]
           [13; 9; 2; 5] [2; 5; 9; 13]).
  - apply Permutation_sym. change [13; 2; 5; 9] with ([13] ++ [2; 5; 9]).
    change [2; 5; 9; 13] with ([2; 5; 9] ++ [13]). apply Permutation_app_comm.
  - change [13; 9; 2; 5] with ([13; 9] ++ [2; 5]).
    apply Permutation_trans with ([2; 5] ++ [13; 9]);
      [apply Permutation_app_comm |].
    simpl. do 2 apply perm_skip. apply perm_swap.
Defined.

(** X5. The string-ordered [sort()] that the generation step applies to the
    correct sectors changes no score and no membership test: scoring against
    the sorted list is scoring against the list as drawn. *)
Theorem sort_keeps_score (correctSectors selected : list Z) :
  CaptchaValidator.isCorrect (JS.sort correctSectors) selected
  = CaptchaValidator.isCorrect correctSectors selected
  /\ forall x, JS.includes (JS.sort correctSectors) x = JS.includes correctSectors x.
Proof.
  split.
  - apply isCorrect_Permutation; [apply sort_Permutation | apply Permutation_refl].
  - intros x. pose proof (sort_Permutation correctSectors) as Hperm.
    destruct (JS.includes correctSectors x) eqn:E.
    + apply includes_In. apply includes_In in E.
      now apply (Permutation_in _ (Permutation_sym Hperm)).
    + apply includes_not_In. apply includes_not_In in E.
      intros Hin. apply E. now apply (Permutation_in _ Hperm).
Qed.

(** X6. Every puzzle the generation step produces from draws in [0, 1) can
    be solved on screen: clicking its correct sectors, each once, selects
    exactly them, the [Validate] button is enabled, and the submission ends
    the session in the success phase. *)
Theorem generated_challenge_solvable (p : CaptchaValidator.Props)
    (data : CaptchaValidator.CapturedData) (rnd : JS.Random) (k fuel : nat)
    (c c1 : Session.Config) :
  JS.unit_interval rnd ->
  Session.exec p (Session.Capture data rnd k fuel) c = Some c1 ->
  exists ch,
    CaptchaValidator.challenge (fst c1) = Some ch
    /\ Forall (fun index => In index ShapeValidation.buttons)
         (CaptchaValidator.correctSectors ch)
    /\ ShapeValidation.clicked (CaptchaValidator.correctSectors ch)
       = CaptchaValidator.correctSectors ch
    /\ ShapeValidation.validateDisabled
         (ShapeValidation.clicked (CaptchaValidator.correctSectors ch)) = false
    /\ exists c2,
         Session.exec p
           (Session.Submit (ShapeValidation.clicked (CaptchaValidator.correctSectors ch)))
           c1 = Some c2
         /\ Session.phase p (fst c2) = Some Session.success.
Proof.
  intros Hrnd Hcap. destruct c as [st calls].
  apply exec_Capture in Hcap. destruct Hcap as (_ & ch & k' & Hgen & ->).
  apply (generateChallenge_sectors rnd Hrnd) in Hgen.
  destruct Hgen as (Hlen & Hnd & Hgrid & _).
  assert (Hclicked : ShapeValidation.clicked (CaptchaValidator.correctSectors ch)
                     = CaptchaValidator.correctSectors ch).
  { unfold ShapeValidation.clicked. now rewrite clicks_append. }
  exists ch. split; [reflexivity |]. split; [| split; [exact Hclicked | split]].
  - rewrite Forall_forall in *. intros x Hx. now apply buttons_sector_index, Hgrid.
  - rewrite Hclicked. unfold ShapeValidation.validateDisabled.
    destruct (CaptchaValidator.correctSectors ch); [simpl in Hlen; lia | reflexivity].
  - rewrite Hclicked. eexists. split; [reflexivity |].
    unfold ShapeValidation.handleValidate,
      CaptchaValidator.handleValidationComplete. simpl CaptchaValidator.challenge.
    assert (Hok : CaptchaValidator.isCorrect (CaptchaValidator.correctSectors ch)
                    (CaptchaValidator.correctSectors ch) = true).
    { apply isCorrect_true. repeat split; try apply incl_refl. }
    cbv beta iota zeta. rewrite Hok. reflexivity.
Qed.

Lemma generated_challenge_solvable_witness :
  exists c1 c2,
    Session.exec Sample.props Sample.capture Session.start = Some c1
    /\ Session.exec Sample.props (Session.Submit [10; 2]) c1 = Some c2
    /\ Session.phase Sample.props (fst c2) = Some Session.success.
Proof.
  assert (Hrnd : JS.unit_interval (JS.tape Sample.draws)).
  { apply tape_unit. repeat constructor; discriminate. }
  assert (Hcap : Session.exec Sample.props Sample.capture Session.start
                 = Some (Sample.selecting, [])) by reflexivity.
  destruct (generated_challenge_solvable Sample.props _ _ _ _ _ _ Hrnd Hcap)
    as (ch & Hch & _ & Hclicked & _ & c2 & Hsub & Hph).
  simpl in Hch. injection Hch as <-. rewrite Hclicked in Hsub.
  exists (Sample.selecting, []), c2. auto.
Defined.

(** ** The attempt budget *)

Section Budget.
Import JS CaptchaValidator Session.

Variable p : Props.

Lemma bounded_exec (ev : Event) (c c' : Config) :
  consistent p c -> bounded p (fst c) -> exec p ev c = Some c' ->
  bounded p (fst c').
Proof.
  destruct c as [st calls]. intros Hc Hb Hex. simpl in Hb.
  apply exec_inv in Hex.
  destruct Hex as [(Hstep & data & rnd & k & fuel & st' & k' & -> & Hcap & ->)
                  | [(Hstep & data & ch & sel & Hd & Hch & -> & ->)
                    | (Hstep & Hs & Hbl & Hr & -> & ->)]].
  - apply handleCameraCapture_inv in Hcap. destruct Hcap as (ch & _ & ->).
    unfold bounded in *. rewrite Hstep in Hb. simpl.
    destruct Hb as (_ & _ & Hn). repeat split; try discriminate. exact Hn.
  - unfold bounded in Hb. rewrite Hstep in Hb. destruct Hb as (_ & _ & Hn).
    unfold consistent in Hc. rewrite Hstep in Hc. destruct Hc as (_ & Hbl & _).
    unfold handleValidationComplete. rewrite Hch.
    destruct (isCorrect (correctSectors ch) sel).
    + unfold bounded. simpl. split; [lia | discriminate].
    + destruct (attemptCount st + 1 >=? maxAttempts p) eqn:Hmax;
        unfold bounded; simpl.
      * split; [lia |]. intros _. lia.
      * rewrite Hbl. split; [lia |]. intros _. lia.
  - unfold bounded in *. rewrite Hstep in Hb. simpl.
    unfold canRetry in Hr. rewrite !andb_true_iff in Hr.
    destruct Hr as (_ & Hlt). apply Z.ltb_lt in Hlt.
    repeat split. right. lia.
Qed.

Lemma bounded_reachable (c : Config) : reachable p c -> bounded p (fst c).
Proof.
  induction 1 as [| c c' Hre IH [ev Hex]].
  - simpl. unfold bounded. simpl. auto.
  - eapply bounded_exec; [apply consistent_reachable | |]; eassumption.
Qed.

(** In every reachable configuration the screen shows one of the five
    phases. *)
Lemma reachable_phase (c : Config) :
  reachable p c -> exists ph, phase p (fst c) = Some ph.
Proof.
  intros Hre. pose proof (bounded_reachable c Hre) as Hb.
  destruct c as [st calls]. simpl in *.
  unfold bounded in Hb. unfold phase, render.
  destruct (currentStep st).
  - eauto.
  - destruct Hb as (Hd & Hch & _).
    destruct (capturedData st); [| congruence].
    destruct (challenge st); [| congruence]. eauto.
  - unfold ValidationResult.render, canRetry. simpl.
    destruct (validationSuccess st); [eauto |].
    destruct Hb as (_ & Hn). specialize (Hn eq_refl).
    destruct (isBlocked st); [eauto |]. simpl.
    apply Z.ltb_lt in Hn. rewrite Hn. eauto.
Qed.

Lemma run_last_reachable (evs : list Event) (c : Config) (cs : list Config) :
  reachable p c -> run p evs c = Some cs -> reachable p (last cs c).
Proof.
  intros Hre Hrun. pose proof (run_reachable p evs c cs Hre Hrun) as Hall.
  destruct cs as [| c0 cs] using rev_ind; [exact Hre |].
  rewrite last_last. apply Forall_app in Hall. destruct Hall as [_ Hlast].
  now inversion Hlast.
Qed.

Lemma run_attemptCount (evs : list Event) :
  forall c cs, run p evs c = Some cs ->
               attemptCount (fst (last cs c)) = attemptCount (fst c) + submissions evs.
Proof.
  induction evs as [| ev evs IH]; intros c cs Hrun.
  - simpl in Hrun. injection Hrun as <-. simpl. lia.
  - apply run_cons in Hrun. destruct Hrun as (c' & cs' & Hex & Hrun & ->).
    specialize (IH c' cs' Hrun).
    assert (Hlast : last (c' :: cs') c = last cs' c').
    { clear. revert c c'.
      induction cs' as [| x cs' IH]; intros c c'; [reflexivity |].
      change (last (c' :: x :: cs') c) with (last (x :: cs') c).
      now rewrite (IH c x), (IH c' x). }
    rewrite Hlast, IH. destruct c as [st calls].
    destruct ev as [data rnd k fuel | sel |].
    + apply exec_Capture in Hex. destruct Hex as (_ & ch & k' & _ & ->).
      simpl. lia.
    + apply exec_Submit in Hex. destruct Hex as (_ & (ch & Hch) & ->).
      change (submissions (Submit sel :: evs)) with (1 + submissions evs).
      assert (Hn : attemptCount (fst (handleValidationComplete p sel st calls))
                   = attemptCount st + 1).
      { unfold handleValidationComplete. rewrite Hch.
        destruct (isCorrect _ _); [reflexivity |].
        destruct (_ >=? _); reflexivity. }
      rewrite Hn. simpl fst. lia.
    + apply exec_Retry in Hex. destruct Hex as (_ & _ & ->). simpl. lia.
Qed.

End Budget.

(** X7. A session never shows an empty widget and never the failure screen
    without its retry button: in every reachable configuration the screen is
    the camera step, the selection step, the success screen, the blocked
    screen or the failure screen with [Try Again]. *)
Theorem session_never_blank (p : CaptchaValidator.Props) (c : Session.Config) :
  Session.reachable p c ->
  match Session.render p (fst c) with
  | Session.NoView => False
  | Session.ValidationResultView rp =>
      ValidationResult.render rp <> ValidationResult.Failed false
  | _ => True
  end.
Proof.
  intros Hre. destruct (reachable_phase p c Hre) as (ph & Hph).
  unfold Session.phase in Hph.
  destruct (Session.render p (fst c)) as [| sp | rp |]; try exact I;
    [| discriminate].
  intros Hf. rewrite Hf in Hph. discriminate.
Qed.

Lemma session_never_blank_witness :
  Session.render Sample.props Sample.selecting <> Session.NoView.
Proof.
  assert (Hre : Session.reachable Sample.props (Sample.selecting, [])).
  { apply Session.reachable_step with Session.start;
      [apply Session.reachable_start | now exists Sample.capture]. }
  pose proof (session_never_blank Sample.props _ Hre) as H.
  intros Hno. simpl fst in H. rewrite Hno in H. exact H.
Defined.

(** X8. After any sequence of events the attempt count is the number of
    submissions made, and it never exceeds [max(1, maxAttempts)]: a session
    accepts at most that many submissions, and the header, shown from the
    first attempt on, never reads an attempt beyond a positive
    [maxAttempts]. *)
Theorem attemptCount_within_budget (p : CaptchaValidator.Props)
    (evs : list Session.Event) (cs : list Session.Config) :
  Session.run p evs Session.start = Some cs ->
  let st := fst (last cs Session.start) in
  CaptchaValidator.attemptCount st = Session.submissions evs
  /\ 0 <= Session.submissions evs <= Z.max 1 (CaptchaValidator.maxAttempts p)
  /\ (Session.attemptLabel p st = None <-> Session.submissions evs = 0)
  /\ forall n m, Session.attemptLabel p st = Some (n, m) ->
                 1 <= n /\ m = CaptchaValidator.maxAttempts p /\ (1 <= m -> n <= m).
Proof.
  intros Hrun st.
  pose proof (run_attemptCount p evs _ _ Hrun) as Hcount. simpl in Hcount.
  fold st in Hcount.
  pose proof (bounded_reachable p _
                (run_last_reachable p evs _ _ (Session.reachable_start p) Hrun))
    as Hb.
  fold st in Hb.
  assert (Hn : 0 <= CaptchaValidator.attemptCount st
               <= Z.max 1 (CaptchaValidator.maxAttempts p)).
  { unfold Session.bounded in Hb.
    destruct (CaptchaValidator.currentStep st).
    - destruct Hb as (_ & _ & [H0 | H1]); lia.
    - destruct Hb as (_ & _ & [H0 | H1]); lia.
    - destruct Hb as (H1 & _). lia. }
  split; [exact Hcount |]. split; [lia |].
  unfold Session.attemptLabel. rewrite <- Hcount.
  destruct (CaptchaValidator.attemptCount st >? 0) eqn:Hpos.
  - apply Z.gtb_lt in Hpos. split; [split; [discriminate | lia] |].
    intros n m Heq. injection Heq as <- <-. repeat split; lia.
  - assert (CaptchaValidator.attemptCount st <= 0)
      by (rewrite Z.gtb_ltb in Hpos; now apply Z.ltb_ge in Hpos).
    split; [split; [lia | reflexivity] | discriminate].
Qed.

Lemma attemptCount_within_budget_witness :
  exists cs,
    Session.run Sample.props Sample.three_failures Session.start = Some cs
    /\ CaptchaValidator.attemptCount (fst (last cs Session.start)) = 3.
Proof.
  assert (Hrun : Session.run Sample.props Sample.three_failures Session.start
                 = Some [_; _; _; _; _; _; _; _]) by (cbv; reflexivity).
  eexists. split; [exact Hrun |].
  exact (proj1 (attemptCount_within_budget Sample.props _ _ Hrun)).
Defined.

(** X9. The attempt count in each phase: a session is blocked at attempt
    [max(1, maxAttempts)] exactly, offers a retry only after fewer than
    [maxAttempts] attempts, and succeeds at an attempt between 1 and
    [max(1, maxAttempts)]. *)
Theorem phase_attemptCount (p : CaptchaValidator.Props) (c : Session.Config) :
  Session.reachable p c ->
  let n := CaptchaValidator.attemptCount (fst c) in
  let m := CaptchaValidator.maxAttempts p in
  match Session.phase p (fst c) with
  | Some Session.blocked => n = Z.max 1 m
  | Some Session.retry_available => 1 <= n < m
  | Some Session.success => 1 <= n <= Z.max 1 m
  | Some Session.awaiting_capture | Some Session.awaiting_selection =>
      n = 0 \/ 0 < n < m
  | None => False
  end.
Proof.
  intros Hre n m. pose proof (bounded_reachable p c Hre) as Hb.
  destruct (reachable_phase p c Hre) as (ph & Hph). rewrite Hph.
  destruct c as [st calls]. simpl in *. subst n m.
  unfold Session.phase, Session.render in Hph. unfold Session.bounded in Hb.
  destruct (CaptchaValidator.currentStep st).
  - injection Hph as <-. tauto.
  - destruct (CaptchaValidator.capturedData st), (CaptchaValidator.challenge st);
      try discriminate.
    injection Hph as <-. tauto.
  - unfold ValidationResult.render in Hph. simpl in Hph.
    destruct Hb as (Hn & Hf).
    destruct (CaptchaValidator.validationSuccess st).
    + injection Hph as <-. exact Hn.
    + specialize (Hf eq_refl).
      destruct (CaptchaValidator.isBlocked st).
      * injection Hph as <-. exact Hf.
      * destruct (CaptchaValidator.canRetry p st); [| discriminate].
        injection Hph as <-. lia.
Qed.

Lemma phase_attemptCount_witness :
  exists c,
    Session.reachable Sample.props c
    /\ Session.phase Sample.props (fst c) = Some Session.blocked
    /\ CaptchaValidator.attemptCount (fst c) = 3.
Proof.
  assert (Hrun : Session.run Sample.props Sample.three_failures Session.start
                 = Some [_; _; _; _; _; _; _; _]) by (cbv; reflexivity).
  pose proof (run_last_reachable Sample.props _ _ _
                (Session.reachable_start Sample.props) Hrun) as Hre.
  eexists. split; [exact Hre |]. split; [reflexivity |].
  exact (phase_attemptCount Sample.props _ Hre).
Defined.

(** X11. Whenever the selection step is on screen its tolerance level is
    [max(1, maxAttempts)] less the attempts made, the number of submissions
    left before the session is blocked; the reduced-tolerance notice shows
    exactly when fewer than three are left. *)
Theorem toleranceLevel_submissions_left (p : CaptchaValidator.Props)
    (c : Session.Config) (sp : ShapeValidation.Props) :
  Session.reachable p c ->
  Session.render p (fst c) = Session.ShapeValidationView sp ->
  let left := Z.max 1 (CaptchaValidator.maxAttempts p)
              - CaptchaValidator.attemptCount (fst c) in
  ShapeValidation.toleranceLevel sp = left
  /\ 1 <= left
  /\ ShapeValidation.reducedToleranceNotice sp = (left <? 3).
Proof.
  intros Hre Hview left. pose proof (bounded_reachable p c Hre) as Hb.
  destruct c as [st calls]. simpl in *.
  unfold Session.render in Hview. unfold Session.bounded in Hb.
  destruct (CaptchaValidator.currentStep st); try discriminate.
  destruct (CaptchaValidator.capturedData st); try discriminate.
  destruct (CaptchaValidator.challenge st); try discriminate.
  injection Hview as <-. destruct Hb as (_ & _ & Hn).
  unfold ShapeValidation.reducedToleranceNotice. simpl.
  unfold CaptchaValidator.toleranceLevel. subst left.
  assert (Heq : Z.max 1 (CaptchaValidator.maxAttempts p - CaptchaValidator.attemptCount st)
                = Z.max 1 (CaptchaValidator.maxAttempts p)
                  - CaptchaValidator.attemptCount st) by lia.
  rewrite Heq. repeat split. lia.
Qed.

Lemma toleranceLevel_submissions_left_witness :
  exists sp,
    Session.render Sample.props Sample.selecting = Session.ShapeValidationView sp
    /\ ShapeValidation.toleranceLevel sp = 3
    /\ ShapeValidation.reducedToleranceNotice sp = false.
Proof.
  assert (Hre : Session.reachable Sample.props (Sample.selecting, [])).
  { apply Session.reachable_step with Session.start;
      [apply Session.reachable_start | now exists Sample.capture]. }
  eexists. split; [reflexivity |].
  destruct (toleranceLevel_submissions_left Sample.props _ _ Hre eq_refl)
    as (Htol & _ & Hnotice).
  split; [exact Htol | exact Hnotice].
Defined.

(** X12. On the failure screen the line about remaining attempts shows
    exactly when the retry button does; in a session it then counts at least
    one attempt, [maxAttempts] less the attempts made, and uses the singular
    exactly for one. *)
Theorem remainingNotice_positive (p : CaptchaValidator.Props)
    (c : Session.Config) (rp : ValidationResult.Props) :
  Session.reachable p c ->
  Session.render p (fst c) = Session.ValidationResultView rp ->
  (ValidationResult.remainingNotice rp = None <->
   ValidationResult.render rp <> ValidationResult.Failed true)
  /\ forall r plural,
       ValidationResult.remainingNotice rp = Some (r, plural) ->
       r = CaptchaValidator.maxAttempts p - CaptchaValidator.attemptCount (fst c)
       /\ 1 <= r
       /\ (plural = false <-> r = 1).
Proof.
  intros Hre Hview. pose proof (bounded_reachable p c Hre) as Hb.
  pose proof (consistent_reachable p c Hre) as Hc.
  destruct c as [st calls]. simpl in *.
  unfold Session.render in Hview. unfold Session.bounded in Hb.
  unfold Session.consistent in Hc.
  destruct (CaptchaValidator.currentStep st) eqn:Hstep; try discriminate.
  - destruct (CaptchaValidator.capturedData st), (CaptchaValidator.challenge st);
      discriminate.
  - injection Hview as <-.
    unfold ValidationResult.remainingNotice, ValidationResult.render. simpl.
    unfold CaptchaValidator.canRetry.
    destruct Hb as (Hn & Hf).
    destruct Hc as [(Hs & Hbl & _) | [(Hs & Hbl & _) | (Hs & Hbl & Hlt & _)]];
      rewrite Hs, ?Hbl; simpl.
    + split; [split; [discriminate | reflexivity] | discriminate].
    + split; [split; [discriminate | reflexivity] | discriminate].
    + apply Z.ltb_lt in Hlt. rewrite Hlt. apply Z.ltb_lt in Hlt.
      split; [split; [discriminate | intros H; now elim H] |].
      intros r plural Heq. injection Heq as <- <-.
      split; [reflexivity |]. split; [lia |].
      rewrite negb_false_iff. apply Z.eqb_eq.
Qed.

Lemma remainingNotice_positive_witness :
  exists c rp,
    Session.run Sample.props [Sample.capture; Session.Submit [2]] Session.start
      = Some [(Sample.selecting, []); c]
    /\ Session.render Sample.props (fst c) = Session.ValidationResultView rp
    /\ ValidationResult.remainingNotice rp = Some (2, true).
Proof.
  assert (Hrun : Session.run Sample.props [Sample.capture; Session.Submit [2]]
                   Session.start = Some [(Sample.selecting, []); _])
    by (cbv; reflexivity).
  pose proof (run_last_reachable Sample.props _ _ _
                (Session.reachable_start Sample.props) Hrun) as Hre.
  do 2 eexists. split; [exact Hrun |]. split; [reflexivity |].
  destruct (remainingNotice_positive Sample.props _ _ Hre eq_refl) as (_ & Hr).
  destruct (Hr 2 true eq_refl) as (_ & _ & _). reflexivity.
Defined.

(** ** The grid *)

(** X13. The sixteen buttons fill a 4x4 grid in row-major order: a button's
    row and column are both in 0..3 and give back its index as
    [4 * row + col], so different buttons sit in different cells and every
    cell has its button. *)
Theorem grid_cell (index : Z) :
  In index ShapeValidation.buttons ->
  ShapeValidation.row index = index / 4
  /\ 0 <= ShapeValidation.row index < 4
  /\ 0 <= ShapeValidation.col index < 4
  /\ index = 4 * ShapeValidation.row index + ShapeValidation.col index
  /\ (forall other,
        In other ShapeValidation.buttons ->
        ShapeValidation.row other = ShapeValidation.row index ->
        ShapeValidation.col other = ShapeValidation.col index ->
        other = index)
  /\ (forall r c, 0 <= r < 4 -> 0 <= c < 4 ->
        In (4 * r + c) ShapeValidation.buttons
        /\ ShapeValidation.row (4 * r + c) = r
        /\ ShapeValidation.col (4 * r + c) = c).
Proof.
  assert (Hrow : forall i, ShapeValidation.row i = i / 4).
  { intros i. unfold ShapeValidation.row, JS.Math_floor. symmetry.
    apply (Zdiv_Qdiv i 4). }
  assert (Hcol : forall i, 0 <= i -> ShapeValidation.col i = i mod 4).
  { intros i Hi. unfold ShapeValidation.col. apply Z.rem_mod_nonneg; lia. }
  assert (Hdm : forall i, 0 <= i < 16 ->
                         0 <= i / 4 < 4 /\ 0 <= i mod 4 < 4
                         /\ i = 4 * (i / 4) + i mod 4).
  { intros i Hi. pose proof (Z.div_mod i 4 ltac:(lia)) as Heq.
    pose proof (Z.mod_pos_bound i 4 ltac:(lia)) as Hm.
    repeat split; lia. }
  intros Hin. apply buttons_sector_index in Hin.
  unfold CaptchaValidator.sector_index in Hin.
  rewrite Hrow, Hcol by lia.
  destruct (Hdm index Hin) as (Hr & Hc & Heq).
  split; [reflexivity |]. split; [exact Hr |]. split; [exact Hc |].
  split; [exact Heq |]. split.
  - intros other Ho. apply buttons_sector_index in Ho.
    unfold CaptchaValidator.sector_index in Ho.
    rewrite Hrow, Hcol by lia. destruct (Hdm other Ho) as (_ & _ & Heq').
    intros H1 H2. rewrite H1, H2 in Heq'. lia.
  - intros r c Hr' Hc'. rewrite Hrow, Hcol by lia.
    assert (Hg : 0 <= 4 * r + c < 16) by lia.
    destruct (Hdm _ Hg) as (Hq & Hm & Heq').
    split; [apply buttons_sector_index; exact Hg |]. lia.
Qed.

Lemma grid_cell_witness :
  ShapeValidation.row 13 = 3 /\ ShapeValidation.col 13 = 1.
Proof.
  assert (Hin : In 13 ShapeValidation.buttons).
  { apply buttons_sector_index. unfold CaptchaValidator.sector_index. lia. }
  destruct (grid_cell 13 Hin) as (Hrow & _).
  split; [rewrite Hrow; reflexivity | reflexivity].
Defined.

(** ** The capture step *)

(** X14. When the video has the size recorded at the time its metadata
    loaded (or reports no size at all, so that 640x480 stands in), the canvas
    has that size too and the captured square is the square on screen: both
    scale factors are one. *)
Theorem handleCapture_unscaled (videoWidth videoHeight : Z)
    (squarePosition : CaptchaValidator.Position) (imageData : string) :
  let captured :=
    CameraCapture.handleCapture videoWidth videoHeight
      (CameraCapture.onloadedmetadata videoWidth videoHeight)
      squarePosition imageData in
  CaptchaValidator.imageData captured = imageData
  /\ (CaptchaValidator.x (CaptchaValidator.squarePosition captured)
      == CaptchaValidator.x squarePosition)%Q
  /\ (CaptchaValidator.y (CaptchaValidator.squarePosition captured)
      == CaptchaValidator.y squarePosition)%Q
  /\ (CaptchaValidator.size (CaptchaValidator.squarePosition captured)
      == CaptchaValidator.size squarePosition)%Q.
Proof.
  assert (Hone : forall v d : Z,
             d <> 0 ->
             (inject_Z (CameraCapture.orElse v (CameraCapture.orElse v d))
              / inject_Z (CameraCapture.orElse v d) == 1)%Q).
  { intros v d Hd. unfold CameraCapture.orElse.
    destruct (v =? 0) eqn:Hv.
    - apply Qmult_inv_r.
      intros H. apply Hd. now apply (inject_Z_injective d 0).
    - apply Z.eqb_neq in Hv. apply Qmult_inv_r.
      intros H. apply Hv. now apply (inject_Z_injective v 0). }
  intros captured. subst captured. unfold CameraCapture.handleCapture. simpl.
  pose proof (Hone videoWidth 640 ltac:(lia)) as Hx.
  pose proof (Hone videoHeight 480 ltac:(lia)) as Hy.
  split; [reflexivity |]. split; [| split].
  - rewrite Hx. apply Qmult_1_r.
  - rewrite Hy. apply Qmult_1_r.
  - rewrite Hx, Hy, Q.min_id. apply Qmult_1_r.
Qed.

(** ** Generation, continued *)

Section Fuel.
Import JS CaptchaValidator.

Variable rnd : Random.

Lemma fillSectors_more_fuel (fuel : nat) :
  forall (fuel' : nat) (n : Z) (acc : list Z) (k : nat) (r : list Z * nat),
    (fuel <= fuel')%nat ->
    fillSectors fuel n acc rnd k = Some r ->
    fillSectors fuel' n acc rnd k = Some r.
Proof.
  induction fuel as [| fuel IH]; intros fuel' n acc k r Hle Hrun.
  - simpl in Hrun. destruct fuel'; simpl;
      destruct (Z.of_nat (length acc) <? n); (discriminate || exact Hrun).
  - destruct fuel' as [| fuel']; [lia |].
    simpl in *. destruct (Z.of_nat (length acc) <? n); [| exact Hrun].
    unfold bind in *.
    destruct (random_below 16 rnd k) as [[sector k1] |]; [| discriminate].
    destruct (negb (includes acc sector)); apply IH; (lia || exact Hrun).
Qed.

End Fuel.

(** The fuel of the model is no part of the result: a generation that
    has a result with some fuel has the same result, the same challenge after
    the same number of draws, with any larger fuel. *)
Theorem generateChallenge_more_fuel (p : CaptchaValidator.Props)
    (fuel fuel' : nat) (rnd : JS.Random) (k : nat)
    (r : CaptchaValidator.ValidationChallenge * nat) :
  (fuel <= fuel')%nat ->
  CaptchaValidator.generateChallenge p fuel rnd k = Some r ->
  CaptchaValidator.generateChallenge p fuel' rnd k = Some r.
Proof.
  intros Hle. unfold CaptchaValidator.generateChallenge.
  cbv beta iota delta [JS.bind]. 
  destruct (JS.random_below _ rnd k) as [[i k1] |]; [| discriminate].
  destruct (JS.defined _ rnd k1) as [[sh k2] |]; [| discriminate].
  match goal with
  | |- match ?m with _ => _ end = _ -> _ =>
      destruct m as [[co k3] |]; [| discriminate]
  end.
  destruct (JS.random_below 4 rnd k3) as [[n k4] |]; [| discriminate].
  destruct (CaptchaValidator.fillSectors fuel (n + 2) [] rnd k4)
    as [[a k5] |] eqn:Hfill; [| discriminate].
  now rewrite (fillSectors_more_fuel rnd fuel fuel' _ _ _ _ Hle Hfill).
Qed.

Lemma generateChallenge_more_fuel_witness :
  CaptchaValidator.generateChallenge Sample.props 100%nat
    (JS.tape Sample.draws) 0%nat
  = Some (Sample.challenge, 4%nat).
Proof.
  apply (generateChallenge_more_fuel Sample.props 2%nat 100%nat);
    [lia | reflexivity].
Defined.

Section Termination.
Import JS CaptchaValidator.

Variable rnd : Random.
Hypothesis rnd_unit : unit_interval rnd.


End Termination.



(** ** What the grid shows *)

Section Shown.
Import JS ShapeValidation.

Variable ch : CaptchaValidator.ValidationChallenge.
Variable rnd : Random.
Hypothesis rnd_unit : unit_interval rnd.
Hypothesis in_grid :
  Forall CaptchaValidator.sector_index (CaptchaValidator.correctSectors ch).

(** The entries of the plan, slot by slot. *)
Lemma plan_entries (k : nat) :
  exists data k',
    watermarkData ch rnd k = Some (data, k')
    /\ forall i, (i < 16)%nat ->
         exists w,
           get data (Z.of_nat i) = Some (Some w)
           /\ (includes (CaptchaValidator.correctSectors ch) (Z.of_nat i) = true ->
               w = required ch (Z.of_nat i))
           /\ (includes (CaptchaValidator.correctSectors ch) (Z.of_nat i) = false ->
               drawn ch rnd (k + drawsIn ch 0 i) i w).
Proof.
  destruct (forSectors_spec ch rnd rnd_unit 16 0 [] k)
    as (fresh & Hloop & Hlen & Hentries).
  unfold watermarkData, bind. rewrite Hloop. simpl app.
  unfold ret, forEachCorrect.
  destruct (forEach_spec ch (CaptchaValidator.correctSectors ch) fresh)
    as (_ & Hnth).
  { rewrite Hlen. exact in_grid. }
  do 2 eexists. split; [reflexivity |].
  intros i Hi. unfold get.
  destruct (Z.of_nat i <? 0) eqn:E; [apply Z.ltb_lt in E; lia |].
  rewrite Nat2Z.id, Hnth.
  destruct (Hentries i Hi) as (w & Hw & Hd).
  destruct (includes (CaptchaValidator.correctSectors ch) (Z.of_nat i)).
  - eexists. split; [reflexivity |]. split; [reflexivity | discriminate].
  - exists w. split; [exact Hw |]. split; [discriminate |]. intros _. exact Hd.
Qed.

End Shown.

(** X16. The grid can always be drawn, a correct sector always shows the
    requested shape in the class of the requested colour, and while the
    challenge has no colour every watermark on the grid is gray. *)
Theorem correct_sectors_shown (ch : CaptchaValidator.ValidationChallenge)
    (rnd : JS.Random) (k : nat) :
  JS.unit_interval rnd ->
  Forall CaptchaValidator.sector_index (CaptchaValidator.correctSectors ch) ->
  exists data k',
    ShapeValidation.watermarkData ch rnd k = Some (data, k')
    /\ (forall index, In index ShapeValidation.buttons ->
          exists shown, ShapeValidation.renderSector ch data index = Some shown)
    /\ (forall index, In index (CaptchaValidator.correctSectors ch) ->
          ShapeValidation.renderSector ch data index
          = Some (Some (CaptchaValidator.shape ch,
                        match CaptchaValidator.color ch with
                        | Some CaptchaValidator.red => ShapeValidation.text_red_500
                        | Some CaptchaValidator.green => ShapeValidation.text_green_500
                        | Some CaptchaValidator.blue => ShapeValidation.text_blue_500
                        | None => ShapeValidation.text_gray_600
                        end)))
    /\ (CaptchaValidator.color ch = None ->
        forall index sh class,
          ShapeValidation.renderSector ch data index = Some (Some (sh, class)) ->
          class = ShapeValidation.text_gray_600).
Proof.
  intros Hrnd Hgrid.
  destruct (plan_entries ch rnd Hrnd Hgrid k) as (data & k' & Hplan & Hentries).
  exists data, k'. split; [exact Hplan |]. split; [| split].
  - intros index Hin. apply buttons_sector_index in Hin.
    unfold CaptchaValidator.sector_index in Hin.
    destruct (Hentries (Z.to_nat index) ltac:(lia)) as (w & Hw & _).
    rewrite Z2Nat.id in Hw by lia.
    unfold ShapeValidation.renderSector. rewrite Hw. eauto.
  - intros index Hin. rewrite Forall_forall in Hgrid.
    pose proof (Hgrid _ Hin) as Hi. unfold CaptchaValidator.sector_index in Hi.
    destruct (Hentries (Z.to_nat index) ltac:(lia)) as (w & Hw & Hreq & _).
    rewrite Z2Nat.id in Hw, Hreq by lia.
    apply includes_In in Hin. rewrite (Hreq Hin) in Hw.
    unfold ShapeValidation.renderSector. rewrite Hw.
    unfold ShapeValidation.renderWatermark, ShapeValidation.colorClass. simpl.
    destruct (CaptchaValidator.color ch) as [[] |]; reflexivity.
  - intros Hnone index sh class Hshown.
    unfold ShapeValidation.renderSector in Hshown.
    destruct (JS.get data index) as [[w |] |]; try discriminate.
    unfold ShapeValidation.renderWatermark, ShapeValidation.colorClass in Hshown.
    rewrite Hnone in Hshown.
    destruct (negb (ShapeValidation.hasWatermark w)); [discriminate |].
    now injection Hshown as _ <-.
Qed.

Lemma correct_sectors_shown_witness :
  exists data k',
    ShapeValidation.watermarkData Sample.challenge (JS.tape Sample.draws) 0%nat
    = Some (data, k')
    /\ ShapeValidation.renderSector Sample.challenge data 10
       = Some (Some (CaptchaValidator.square, ShapeValidation.text_gray_600)).
Proof.
  assert (Hrnd : JS.unit_interval (JS.tape Sample.draws)).
  { apply tape_unit. repeat constructor; discriminate. }
  assert (Hgrid : Forall CaptchaValidator.sector_index
                    (CaptchaValidator.correctSectors Sample.challenge)).
  { repeat (apply Forall_cons; [unfold CaptchaValidator.sector_index; lia |]).
    apply Forall_nil. }
  destruct (correct_sectors_shown Sample.challenge (JS.tape Sample.draws) 0%nat
              Hrnd Hgrid) as (data & k' & Hplan & _ & Hshown & _).
  exists data, k'. split; [exact Hplan |].
  apply (Hshown 10). simpl. auto.
Defined.

(** X17. A decoy can look exactly like a target: for any sector of the grid
    that is not correct there are draws in [0, 1) with which its button shows
    the very watermark that a correct sector shows, although selecting it
    makes every submission score incorrect. *)
Theorem decoy_indistinguishable (ch : CaptchaValidator.ValidationChallenge)
    (k : nat) (decoy target : Z) :
  Forall CaptchaValidator.sector_index (CaptchaValidator.correctSectors ch) ->
  In decoy ShapeValidation.buttons ->
  ~ In decoy (CaptchaValidator.correctSectors ch) ->
  In target (CaptchaValidator.correctSectors ch) ->
  exists rnd data k' shown,
    JS.unit_interval rnd
    /\ ShapeValidation.watermarkData ch rnd k = Some (data, k')
    /\ ShapeValidation.renderSector ch data target = Some (Some shown)
    /\ ShapeValidation.renderSector ch data decoy = Some (Some shown)
    /\ forall selected,
         In decoy selected ->
         CaptchaValidator.isCorrect (CaptchaValidator.correctSectors ch) selected
         = false.
Proof.
  intros Hgrid Hdecoy Hout Htarget.
  apply buttons_sector_index in Hdecoy.
  unfold CaptchaValidator.sector_index in Hdecoy.
  set (i := Z.to_nat decoy).
  set (d := (k + ShapeValidation.drawsIn ch 0 i)%nat).
  set (sdraw := match CaptchaValidator.shape ch with
                | CaptchaValidator.triangle => 0 # 1
                | CaptchaValidator.square => 1 # 2
                | CaptchaValidator.circle => 3 # 4
                end).
  set (cdraw := match CaptchaValidator.color ch with
                | Some CaptchaValidator.green => 1 # 2
                | Some CaptchaValidator.blue => 3 # 4
                | _ => 0 # 1
                end).
  set (rnd := fun j : nat =>
                if (j =? S d)%nat then sdraw
                else if (j =? S (S d))%nat then cdraw else 0 # 1).
  assert (Hrnd : JS.unit_interval rnd).
  { intros j. unfold rnd, sdraw, cdraw.
    destruct (j =? S d)%nat; [| destruct (j =? S (S d))%nat].
    - destruct (CaptchaValidator.shape ch); split; discriminate || reflexivity.
    - destruct (CaptchaValidator.color ch) as [[] |];
        split; discriminate || reflexivity.
    - split; discriminate || reflexivity. }
  destruct (plan_entries ch rnd Hrnd Hgrid k)
    as (data & k' & Hplan & Hentries).
  exists rnd, data, k'.
  destruct (Hentries i ltac:(lia)) as (w & Hw & _ & Hnoise).
  unfold i in Hw, Hnoise. rewrite Z2Nat.id in Hw, Hnoise by lia.
  apply includes_not_In in Hout. specialize (Hnoise Hout).
  destruct Hnoise as (_ & _ & Hn).
  rewrite Z2Nat.id in Hn by lia. specialize (Hn Hout).
  destruct Hn as (Hhas & Hshape & Hcolor). fold i d in Hhas, Hshape, Hcolor.
  assert (Hd0 : rnd d = 0 # 1).
  { unfold rnd. replace (d =? S d)%nat with false by (symmetry; apply Nat.eqb_neq; lia).
    now replace (d =? S (S d))%nat with false by (symmetry; apply Nat.eqb_neq; lia). }
  assert (Hd1 : rnd (S d) = sdraw).
  { unfold rnd. now rewrite Nat.eqb_refl. }
  assert (Hd2 : rnd (S (S d)) = cdraw).
  { unfold rnd. replace (S (S d) =? S d)%nat with false
      by (symmetry; apply Nat.eqb_neq; lia).
    now rewrite Nat.eqb_refl. }
  rewrite Hd0 in Hhas. rewrite Hd1 in Hshape. rewrite Hd2 in Hcolor.
  pose proof (Forall_forall CaptchaValidator.sector_index
                (CaptchaValidator.correctSectors ch)) as [Hall _].
  pose proof (Hall Hgrid _ Htarget) as Ht.
  unfold CaptchaValidator.sector_index in Ht.
  destruct (Hentries (Z.to_nat target) ltac:(lia)) as (wt & Hwt & Hreq & _).
  rewrite Z2Nat.id in Hwt, Hreq by lia.
  apply includes_In in Htarget. rewrite (Hreq Htarget) in Hwt.
  exists (CaptchaValidator.shape ch,
          ShapeValidation.colorClass ch (ShapeValidation.required ch target)).
  split; [exact Hrnd |]. split; [exact Hplan |]. split; [| split].
  - unfold ShapeValidation.renderSector. now rewrite Hwt.
  - unfold ShapeValidation.renderSector. rewrite Hw.
    unfold ShapeValidation.renderWatermark. rewrite Hhas.
    change (negb (JS.lt (0 # 1) ShapeValidation.noise)) with false. cbv iota.
    do 2 f_equal.
    assert (Hs : ShapeValidation.shape w = CaptchaValidator.shape ch).
    { revert Hshape. unfold sdraw.
      destruct (CaptchaValidator.shape ch); vm_compute; congruence. }
    rewrite Hs. f_equal.
    unfold ShapeValidation.colorClass, ShapeValidation.required. simpl.
    revert Hcolor. unfold cdraw.
    destruct (CaptchaValidator.color ch) as [[] |]; try reflexivity;
      vm_compute; intros Hcolor; injection Hcolor as <-; reflexivity.
  - intros selected Hin.
    destruct (CaptchaValidator.isCorrect (CaptchaValidator.correctSectors ch) selected)
      eqn:E; [| reflexivity].
    apply isCorrect_true in E. destruct E as (_ & Hsc & _).
    apply includes_not_In in Hout. exfalso. apply Hout. now apply Hsc.
Qed.

Lemma decoy_indistinguishable_witness :
  exists rnd data k' shown,
    JS.unit_interval rnd
    /\ ShapeValidation.watermarkData Sample.challenge rnd 0%nat = Some (data, k')
    /\ ShapeValidation.renderSector Sample.challenge data 10 = Some (Some shown)
    /\ ShapeValidation.renderSector Sample.challenge data 3 = Some (Some shown).
Proof.
  assert (Hgrid : Forall CaptchaValidator.sector_index
                    (CaptchaValidator.correctSectors Sample.challenge)).
  { repeat (apply Forall_cons; [unfold CaptchaValidator.sector_index; lia |]).
    apply Forall_nil. }
  assert (Hin : In 3 ShapeValidation.buttons).
  { apply buttons_sector_index. unfold CaptchaValidator.sector_index. lia. }
  assert (Hout : ~ In 3 (CaptchaValidator.correctSectors Sample.challenge)).
  { simpl. intuition lia. }
  assert (Htarget : In 10 (CaptchaValidator.correctSectors Sample.challenge)).
  { simpl. auto. }
  destruct (decoy_indistinguishable Sample.challenge 0%nat 3 10
              Hgrid Hin Hout Htarget)
    as (rnd & data & k' & shown & Hrnd & Hplan & Ht & Hd & _).
  exists rnd, data, k', shown. auto.
Defined.

(** ** The demo page *)

Section Page.
Import Index.

Lemma configuring_inv (st : State) :
  configuring st = true -> showCaptcha st = false /\ completionResult st = None.
Proof.
  unfold configuring. destruct (showCaptcha st), (completionResult st);
    simpl; intros H; try discriminate; auto.
Qed.

Lemma coherent_configuring (app : App) :
  coherent app -> configuring (page app) = true -> validator app = None.
Proof.
  intros (_ & Hv) Hcfg. apply configuring_inv in Hcfg. destruct Hcfg as (Hshow & _).
  destruct (validator app); [| reflexivity].
  destruct Hv as (Hs & _). congruence.
Qed.

(** The calls of one event of a mounted validator: none, or a single call
    that reports a success within the budget or a failure at its end. *)
Lemma widget_calls (st : State) (vst vst' : CaptchaValidator.State)
    (ev : Session.Event) (calls : CaptchaValidator.Calls) :
  In (maxAttempts st) attemptOptions ->
  Session.reachable (validatorProps st) (vst, []) ->
  Session.exec (validatorProps st) ev (vst, []) = Some (vst', calls) ->
  Session.reachable (validatorProps st) (vst', calls)
  /\ (calls = []
      \/ exists success attempts,
           calls = [(success, attempts)]
           /\ 1 <= attempts <= maxAttempts st
           /\ (success = false -> attempts = maxAttempts st)).
Proof.
  intros Hopt Hre Hex.
  assert (Hre' : Session.reachable (validatorProps st) (vst', calls)).
  { eapply Session.reachable_step; [exact Hre | now exists ev]. }
  split; [exact Hre' |].
  pose proof (consistent_reachable _ _ Hre') as Hc.
  pose proof (bounded_reachable _ _ Hre') as Hb.
  assert (Hm : 1 <= maxAttempts st) by (simpl in Hopt; lia).
  unfold Session.consistent in Hc. unfold Session.bounded in Hb. simpl in Hb.
  destruct (CaptchaValidator.currentStep vst').
  - left. now destruct Hc as (_ & _ & ->).
  - left. now destruct Hc as (_ & _ & ->).
  - destruct Hb as (Hn & Hf). simpl in Hn, Hf.
    destruct Hc as [(Hs & Hbl & ->) | [(Hs & Hbl & _ & ->) | (_ & _ & _ & ->)]].
    + right. exists true, (CaptchaValidator.attemptCount vst').
      split; [reflexivity |]. split; [lia | discriminate].
    + right. exists false, (CaptchaValidator.attemptCount vst').
      split; [reflexivity |]. specialize (Hf Hs). rewrite Hbl in Hf.
      split; [lia |]. intros _. lia.
    + now left.
Qed.

Lemma coherent_exec (ev : Event) (app app' : App) :
  coherent app -> exec ev app = Some app' -> coherent app'.
Proof.
  intros Hco Hex. pose proof Hco as (Hopt & Hv).
  destruct ev as [checked | value | | ev' |]; unfold exec in Hex.
  - destruct (configuring (page app)) eqn:Hcfg; [| discriminate].
    pose proof (coherent_configuring app Hco Hcfg) as Hnone.
    apply configuring_inv in Hcfg. destruct Hcfg as (Hshow & Hres).
    injection Hex as <-. unfold coherent. simpl. rewrite Hnone, Hres. auto.
  - destruct (configuring (page app)) eqn:Hcfg; [| discriminate].
    destruct (existsb (Z.eqb value) attemptOptions) eqn:Hval; [| discriminate].
    pose proof (coherent_configuring app Hco Hcfg) as Hnone.
    apply configuring_inv in Hcfg. destruct Hcfg as (Hshow & Hres).
    cbn [andb] in Hex. injection Hex as <-. unfold coherent. simpl.
    rewrite Hnone, Hres. split; [| assumption].
    apply existsb_exists in Hval. destruct Hval as (x & Hx & Heq).
    apply Z.eqb_eq in Heq. now subst.
  - destruct (configuring (page app)) eqn:Hcfg; [| discriminate].
    apply configuring_inv in Hcfg. destruct Hcfg as (Hshow & Hres).
    injection Hex as <-. unfold coherent. simpl. split; [assumption |].
    split; [reflexivity |]. split; [assumption |].
    apply Session.reachable_start.
  - destruct (validator app) as [vst |] eqn:Hval; [| discriminate].
    destruct Hv as (Hshow & Hres & Hre).
    destruct (Session.exec (validatorProps (page app)) ev' (vst, []))
      as [[vst' calls] |] eqn:Hw; [| discriminate].
    destruct (widget_calls _ _ _ _ _ Hopt Hre Hw)
      as (Hre' & [-> | (s & n & -> & Hn & Hfail)]);
      cbn [fold_left fst snd] in Hex; injection Hex as <-; unfold coherent; simpl.
    + rewrite Hshow, Hres. simpl. auto.
    + rewrite Hshow. simpl. auto.
  - destruct (completionResult (page app)); [| discriminate].
    injection Hex as <-. unfold coherent. simpl. auto.
Qed.

Lemma coherent_reachable (app : App) : reachable app -> coherent app.
Proof.
  induction 1 as [| ev app app' _ IH Hex].
  - unfold coherent, boot. simpl. auto.
  - eapply coherent_exec; eassumption.
Qed.

End Page.

(** X18. The demo page always shows exactly one of its three panels, the
    validator is mounted exactly while its panel is the one shown, and the
    result card never misreports: it gives a success after between 1 and
    [maxAttempts] attempts, or a failure after exactly [maxAttempts]
    attempts, [maxAttempts] being one of 1, 2, 3 and 5. *)
Theorem result_card_truthful (app : Index.App) :
  Index.reachable app ->
  (exists panel, Index.render (Index.page app) = [panel])
  /\ (Index.validator app <> None <->
      Index.render (Index.page app)
      = [Index.ValidatorPanel (Index.validatorProps (Index.page app))])
  /\ In (Index.maxAttempts (Index.page app)) [1; 2; 3; 5]
  /\ forall success attempts,
       Index.render (Index.page app) = [Index.ResultCard success attempts] ->
       1 <= attempts <= Index.maxAttempts (Index.page app)
       /\ (success = false -> attempts = Index.maxAttempts (Index.page app)).
Proof.
  intros Hre. apply coherent_reachable in Hre. destruct Hre as (Hopt & Hv).
  unfold Index.render.
  destruct (Index.validator app) as [vst |].
  - destruct Hv as (Hshow & Hres & _). rewrite Hshow, Hres. simpl.
    split; [eauto |]. split; [split; [reflexivity | discriminate] |].
    split; [exact Hopt | discriminate].
  - destruct (Index.completionResult (Index.page app)) as [[s n] |].
    + destruct (Index.showCaptcha (Index.page app)); simpl;
        (split; [eauto |]); (split; [split; [congruence | discriminate] |]);
        (split; [exact Hopt |]); intros s' n' Heq; injection Heq as <- <-;
        exact Hv.
    + rewrite Hv. simpl. split; [eauto |].
      split; [split; [congruence | discriminate] |].
      split; [exact Hopt | discriminate].
Qed.

Lemma result_card_truthful_witness :
  exists app,
    Index.reachable app
    /\ Index.render (Index.page app) = [Index.ResultCard true 1].
Proof.
  assert (Hre : Index.reachable
                  {| Index.page :=
                       {| Index.showCaptcha := true;
                          Index.enableColorTint := false;
                          Index.maxAttempts := 3;
                          Index.completionResult := Some (true, 1) |};
                     Index.validator := None |}).
  { eapply Index.reachable_exec with (ev := Index.Widget (Session.Submit [10; 2]));
      [eapply Index.reachable_exec with (ev := Index.Widget Sample.capture);
       [eapply Index.reachable_exec with (ev := Index.Start);
        [apply Index.reachable_boot | cbv; reflexivity]
       | cbv; reflexivity]
      | cbv; reflexivity]. }
  eexists. split; [exact Hre |].
  destruct (result_card_truthful _ Hre) as ((panel & Hpanel) & _).
  simpl in *. reflexivity.
Defined.

(** X19. Being blocked does not outlast the result card: from any page that
    shows a result, [Try Again] followed by [Start] mounts a new validator in
    its initial state, no attempt counted, with the same [maxAttempts]. *)
Theorem result_card_restart (app : Index.App) :
  Index.reachable app ->
  Index.completionResult (Index.page app) <> None ->
  exists app1 app2,
    Index.exec Index.Reset app = Some app1
    /\ Index.exec Index.Start app1 = Some app2
    /\ Index.reachable app2
    /\ Index.validator app2 = Some CaptchaValidator.initial
    /\ Index.validatorProps (Index.page app2) = Index.validatorProps (Index.page app)
    /\ Index.render (Index.page app2)
       = [Index.ValidatorPanel (Index.validatorProps (Index.page app))].
Proof.
  intros Hre Hres. unfold Index.exec.
  destruct (Index.completionResult (Index.page app)) as [r |] eqn:Hr;
    [| congruence].
  do 2 eexists. split; [reflexivity |]. simpl. split; [reflexivity |].
  split; [| auto].
  eapply Index.reachable_exec with (ev := Index.Start);
    [eapply Index.reachable_exec with (ev := Index.Reset); [exact Hre |] |].
  - unfold Index.exec. rewrite Hr. reflexivity.
  - reflexivity.
Qed.

Lemma result_card_restart_witness :
  exists app app2,
    Index.reachable app
    /\ Index.completionResult (Index.page app) = Some (false, 1)
    /\ Index.reachable app2
    /\ Index.validator app2 = Some CaptchaValidator.initial.
Proof.
  assert (Hre : Index.reachable
                  {| Index.page :=
                       {| Index.showCaptcha := true;
                          Index.enableColorTint := false;
                          Index.maxAttempts := 1;
                          Index.completionResult := Some (false, 1) |};
                     Index.validator := None |}).
  { eapply Index.reachable_exec with (ev := Index.Widget (Session.Submit [2]));
      [eapply Index.reachable_exec with (ev := Index.Widget Sample.capture);
       [eapply Index.reachable_exec with (ev := Index.Start);
        [eapply Index.reachable_exec with (ev := Index.SetMaxAttempts 1);
         [apply Index.reachable_boot | cbv; reflexivity]
        | cbv; reflexivity]
       | cbv; reflexivity]
      | cbv; reflexivity]. }
  destruct (result_card_restart _ Hre ltac:(discriminate))
    as (app1 & app2 & _ & _ & Hre2 & Hv & _).
  eexists. exists app2. split; [exact Hre |]. split; [reflexivity |]. auto.
Defined.

(** ** The order of the correct sectors *)

Section NumeralOrder.
Import JS CaptchaValidator.

Lemma SortCompare_numeralRank (x y : Z) :
  sector_index x -> sector_index y ->
  SortCompare x y = (numeralRank x <=? numeralRank y).
Proof.
  intros Hx Hy. apply buttons_sector_index in Hx. apply buttons_sector_index in Hy.
  assert (Hall : forallb (fun a =>
                   forallb (fun b => Bool.eqb (SortCompare a b)
                                       (numeralRank a <=? numeralRank b))
                           ShapeValidation.buttons)
                   ShapeValidation.buttons = true) by (vm_compute; reflexivity).
  rewrite forallb_forall in Hall. specialize (Hall x Hx).
  rewrite forallb_forall in Hall. specialize (Hall y Hy).
  now apply Bool.eqb_prop in Hall.
Qed.

Lemma StronglySorted_change {A : Type} (R R' : A -> A -> Prop) (l : list A) :
  NoDup l ->
  (forall x y, In x l -> In y l -> x <> y -> R x y -> R' x y) ->
  StronglySorted R l -> StronglySorted R' l.
Proof.
  intros Hnd Himp Hs. induction Hs as [| a l Hs IH Hall]; [constructor |].
  inversion Hnd as [| a' l' Hout Hnd']; subst.
  constructor.
  - apply IH; [assumption |]. intros x y Hx Hy. apply Himp; now right.
  - rewrite Forall_forall in *. intros y Hy.
    apply Himp; [now left | now right | congruence | now apply Hall].
Qed.

Lemma StronglySorted_both {A : Type} (R R' : A -> A -> Prop) (l : list A)
    (x y : A) :
  StronglySorted R l -> StronglySorted R' l -> In x l -> In y l ->
  x = y \/ (R x y /\ R' x y) \/ (R y x /\ R' y x).
Proof.
  intros Hs. revert x y. induction Hs as [| a l Hs IH Hall];
    intros x y Hs' Hx Hy; [contradiction |].
  inversion Hs' as [| a' l' Hs'' Hall']; subst.
  rewrite Forall_forall in Hall, Hall'.
  destruct Hx as [<- | Hx], Hy as [<- | Hy]; auto.
Qed.

End NumeralOrder.

(** X20. The correct sectors of a generated challenge are listed in
    ascending numeric order exactly when they do not include both a sector
    from 2 to 9 and a sector from 10 to 15: the string order of [sort()]
    puts the numerals 10 to 15 before 2 to 9 and agrees with the numeric
    order otherwise. *)
Theorem generated_order_ascending_iff (p : CaptchaValidator.Props)
    (fuel : nat) (rnd : JS.Random) (k : nat)
    (ch : CaptchaValidator.ValidationChallenge) (k' : nat) :
  JS.unit_interval rnd ->
  CaptchaValidator.generateChallenge p fuel rnd k = Some (ch, k') ->
  Sorted Z.lt (CaptchaValidator.correctSectors ch) <->
  ~ (exists s t,
        In s (CaptchaValidator.correctSectors ch)
        /\ In t (CaptchaValidator.correctSectors ch)
        /\ 2 <= s <= 9 /\ 10 <= t).
Proof.
  intros Hrnd Hgen.
  apply (generateChallenge_sectors rnd Hrnd) in Hgen.
  destruct Hgen as (_ & Hnd & Hgrid & Hsorted).
  set (sectors := CaptchaValidator.correctSectors ch) in *.
  rewrite Forall_forall in Hgrid.
  assert (Hrank : StronglySorted
                    (fun a b => CaptchaValidator.numeralRank a
                                <= CaptchaValidator.numeralRank b) sectors).
  { apply Sorted_StronglySorted; [intros a b c; lia |].
    assert (Hgrid' : Forall CaptchaValidator.sector_index sectors)
      by (now apply Forall_forall).
    clear - Hsorted Hgrid'. induction Hsorted as [| a l Hs IH Hhd]; [constructor |].
    inversion Hgrid' as [| a' l' Ha Hl]; subst.
    constructor; [now apply IH |].
    destruct Hhd as [| b l Hab]; constructor.
    inversion Hl as [| b' l' Hb _]; subst.
    rewrite SortCompare_numeralRank in Hab by assumption. now apply Z.leb_le. }
  split.
  - intros Hasc (s & t & Hs & Ht & Hsr & Htr).
    apply Sorted_StronglySorted in Hasc; [| intros a b c; lia].
    destruct (StronglySorted_both _ _ sectors s t Hasc Hrank Hs Ht)
      as [Heq | [[Hlt Hr] | [Hlt Hr]]]; try lia.
    unfold CaptchaValidator.numeralRank in Hr.
    destruct (s <? 2) eqn:E1; [apply Z.ltb_lt in E1; lia |].
    destruct (s <? 10) eqn:E2; [| apply Z.ltb_ge in E2; lia].
    destruct (t <? 2) eqn:E3; [apply Z.ltb_lt in E3; lia |].
    destruct (t <? 10) eqn:E4; [apply Z.ltb_lt in E4; lia |].
    pose proof (Hgrid t Ht) as Hg. unfold CaptchaValidator.sector_index in Hg. lia.
  - intros Hmix. apply StronglySorted_Sorted.
    apply (StronglySorted_change
             (fun a b => CaptchaValidator.numeralRank a
                         <= CaptchaValidator.numeralRank b));
      [exact Hnd | | exact Hrank].
    intros x y Hx Hy Hne Hr.
    pose proof (Hgrid x Hx) as Hgx. pose proof (Hgrid y Hy) as Hgy.
    unfold CaptchaValidator.sector_index in Hgx, Hgy.
    assert (Hbad : ~ (2 <= y <= 9 /\ 10 <= x)).
    { intros [H1 H2]. apply Hmix. exists y, x. auto. }
    unfold CaptchaValidator.numeralRank in Hr.
    destruct (x <? 2) eqn:E1; destruct (x <? 10) eqn:E2;
      destruct (y <? 2) eqn:E3; destruct (y <? 10) eqn:E4;
      rewrite ?Z.ltb_lt, ?Z.ltb_ge in *; lia.
Qed.

Lemma generated_order_ascending_iff_witness :
  ~ Sorted Z.lt (CaptchaValidator.correctSectors Sample.challenge).
Proof.
  assert (Hrnd : JS.unit_interval (JS.tape Sample.draws)).
  { apply tape_unit. repeat constructor; discriminate. }
  assert (Hgen : CaptchaValidator.generateChallenge Sample.props 8%nat
                   (JS.tape Sample.draws) 0%nat = Some (Sample.challenge, 4%nat))
    by reflexivity.
  intros Hasc.
  apply (generated_order_ascending_iff _ _ _ _ _ _ Hrnd Hgen) in Hasc.
  apply Hasc. exists 2, 10. simpl. intuition lia.
Defined.
